(** * interactive_plotting: the histogram rebinner and the kernel-expression evaluator

    A shallow embedding of two pieces of [interactive_plotting.py]:

    - [_inter_hist_js_code], the JavaScript callback that recomputes a density
      histogram from the stored samples when the bin slider moves;
    - [_eval] inside [smooth_expression], the walker that turns a parsed kernel
      expression into a composed kernel, together with the part of
      [smooth_expression] that chooses the expression.

    The callback is written once over an abstract number type and instantiated
    twice: with the rationals (exact arithmetic) and with binary64 floats (the
    numbers JavaScript computes with). *)

From Stdlib Require Import QArith Qminmax Lqa Floats Uint63 ZArith List.
From Stdlib Require Import Sorting.Sorted Sorting.Permutation Ascii.
From stdpp Require Import gmap strings list fin_maps pretty.

Local Open Scope Q_scope.

(** ** The callback [_inter_hist_js_code] over an abstract number type *)

Module Rebinner.
Section Generic.

(** JavaScript numbers and the operations the callback uses on them. *)
Variable num : Type.
(** What an out-of-range array read contributes to arithmetic
    ([undefined], coerced to NaN). *)
Variable undef : num.
Variables add sub mul div : num -> num -> num.
Variable of_nat : nat -> num.
Variable leb : num -> num -> bool.

(** [x.sort((a, b) => a - b)]: a stable sort driven by the sign of the
    comparator. Insertion keeps [a] in front of [b] when [a - b <= 0]. *)
Definition comparator (a b : num) : num := sub a b.

Fixpoint sort_insert (a : num) (l : list num) : list num :=
  match l with
  | [] => [a]
  | b :: l' =>
      if leb (comparator a b) (of_nat 0) then a :: b :: l'
      else b :: sort_insert a l'
  end.

Definition js_sort (l : list num) : list num := foldr sort_insert [] l.

(** The objects the callback receives: [orig.data['values']], [bins.value]
    and the three columns of [source.data]. *)
Record widget : Type := Widget {
  orig_values : list num;
  bins_value : nat;
  source_hist : list num;
  source_l_edges : list num;
  source_r_edges : list num
}.

(** [x[i]] *)
Definition js_get (x : list num) (i : nat) : num := nth i x undef.

(** [(x[x.length - 1] - x[0]) / n_bins] *)
Definition bin_size (x : list num) (n_bins : nat) : num :=
  div (sub (js_get x (length x - 1)) (js_get x 0)) (of_nat n_bins).

(** [new Array(n_bins).fill().map((_, i) => f(i))] *)
Definition array_init (n_bins : nat) (f : nat -> num) : list num :=
  map f (seq 0 n_bins).

Definition l_edges (x : list num) (n_bins : nat) : list num :=
  array_init n_bins (fun i => add (js_get x 0) (mul (bin_size x n_bins) (of_nat i))).

Definition r_edges (x : list num) (n_bins : nat) : list num :=
  array_init n_bins (fun i => add (js_get x 0) (mul (bin_size x n_bins) (of_nat (i + 1)))).

(** The inner loop: the first [j] with [x[i] <= r_edges[j]], if any. *)
Fixpoint find_bin (xi : num) (edges : list num) (j : nat) : option nat :=
  match edges with
  | [] => None
  | r :: edges' => if leb xi r then Some j else find_bin xi edges' (S j)
  end.

(** [hist[j] += 1; break], or nothing when the loop runs to its end. *)
Definition count_sample (edges : list num) (hist : list num) (xi : num) : list num :=
  match find_bin xi edges 0 with
  | Some j => alter (fun c => add c (of_nat 1)) j hist
  | None => hist
  end.

(** The outer loop over the (sorted) samples. *)
Definition counts (x : list num) (n_bins : nat) : list num :=
  fold_left (count_sample (r_edges x n_bins)) x (array_init n_bins (fun _ => of_nat 0)).

(** [hist.reduce((a, b) => a + b, 0)] *)
Definition js_sum (hist : list num) : num := fold_left add hist (of_nat 0).

(** [r_edges.map((c, i) => c - l_edges[i])] *)
Definition deltas (x : list num) (n_bins : nat) : list num :=
  imap (fun i c => sub c (js_get (l_edges x n_bins) i)) (r_edges x n_bins).

(** [hist.map((c, i) => c / deltas[i] / sum)] *)
Definition density (x : list num) (n_bins : nat) : list num :=
  let hist := counts x n_bins in
  let sum := js_sum hist in
  imap (fun i c => div (div c (js_get (deltas x n_bins) i)) sum) hist.

(** The whole callback. [x] is the array stored in [orig.data['values']]
    itself, and [Array.prototype.sort] sorts in place, so the stored array
    is the sorted one afterwards. [source.change.emit()] only notifies the
    renderer. *)
Definition callback (w : widget) : widget :=
  let x := js_sort (orig_values w) in
  let n_bins := bins_value w in
  {| orig_values := x;
     bins_value := n_bins;
     source_hist := density x n_bins;
     source_l_edges := l_edges x n_bins;
     source_r_edges := r_edges x n_bins |}.

End Generic.

Arguments Widget {num}.
Arguments orig_values {num}.
Arguments bins_value {num}.
Arguments source_hist {num}.
Arguments source_l_edges {num}.
Arguments source_r_edges {num}.

End Rebinner.
Import Rebinner (widget, Widget, orig_values, bins_value, source_hist,
                 source_l_edges, source_r_edges).

(** ** Exact arithmetic: the callback over the rationals *)

Module Exact.

Definition of_nat (n : nat) : Q := inject_Z (Z.of_nat n).

(** The rationals have no NaN; the placeholder is only read on an empty
    sample array, which every statement below excludes. *)
Definition undef : Q := 0.

Definition js_sort := Rebinner.js_sort Q Qminus of_nat Qle_bool.
Definition bin_size := Rebinner.bin_size Q undef Qminus Qdiv of_nat.
Definition l_edges := Rebinner.l_edges Q undef Qplus Qminus Qmult Qdiv of_nat.
Definition r_edges := Rebinner.r_edges Q undef Qplus Qminus Qmult Qdiv of_nat.
Definition counts := Rebinner.counts Q undef Qplus Qminus Qmult Qdiv of_nat Qle_bool.
Definition js_sum := Rebinner.js_sum Q Qplus of_nat.
Definition deltas := Rebinner.deltas Q undef Qplus Qminus Qmult Qdiv of_nat.
Definition density := Rebinner.density Q undef Qplus Qminus Qmult Qdiv of_nat Qle_bool.
Definition callback := Rebinner.callback Q undef Qplus Qminus Qmult Qdiv of_nat Qle_bool.

(** The initial widget: samples, slider value, and empty columns. *)
Definition initial (samples : list Q) (n_bins : nat) : widget Q :=
  Widget samples n_bins [] [] [].

(** [min(samples)] and [max(samples)] *)
Definition Qmin_list (l : list Q) : Q :=
  match l with [] => 0 | a :: l' => fold_left Qmin l' a end.
Definition Qmax_list (l : list Q) : Q :=
  match l with [] => 0 | a :: l' => fold_left Qmax l' a end.

(** The integral of the histogram:
    [sum(hist[j] * (r_edges[j] - l_edges[j]) for j)]. *)
Definition Qsum (l : list Q) : Q := fold_right Qplus 0 l.
Definition mass (w : widget Q) : Q :=
  Qsum (map (fun j => nth j (source_hist w) 0
                      * (nth j (source_r_edges w) 0 - nth j (source_l_edges w) 0))
            (seq 0 (length (source_hist w)))).

End Exact.

(** ** binary64: the callback over the numbers JavaScript uses *)

Module Float64.

Definition of_nat (n : nat) : float := PrimFloat.of_uint63 (Uint63.of_Z (Z.of_nat n)).

Definition js_sort := Rebinner.js_sort float PrimFloat.sub of_nat PrimFloat.leb.
Definition r_edges :=
  Rebinner.r_edges float PrimFloat.nan PrimFloat.add PrimFloat.sub PrimFloat.mul PrimFloat.div of_nat.
Definition counts :=
  Rebinner.counts float PrimFloat.nan PrimFloat.add PrimFloat.sub PrimFloat.mul PrimFloat.div
    of_nat PrimFloat.leb.
Definition find_bin := Rebinner.find_bin float PrimFloat.leb.
Definition js_sum := Rebinner.js_sum float PrimFloat.add of_nat.
Definition callback :=
  Rebinner.callback float PrimFloat.nan PrimFloat.add PrimFloat.sub PrimFloat.mul PrimFloat.div
    of_nat PrimFloat.leb.

End Float64.

(** ** [smooth_expression]: the kernel expression evaluator *)

Module Evaluator.

(** Python values stored in a parameter set. *)
Inductive pyval : Type :=
| PStr (s : string)
| PNum (q : Q).

(** The [ast] nodes [_eval] tells apart. [OtherNode] stands for every other
    node class ([Call], [Attribute], [Compare], [Str], ...). *)
Inductive operator : Type :=
| Add | Sub | Mult | MatMult | Div | Mod | Pow
| LShift | RShift | BitOr | BitXor | BitAnd | FloorDiv.

Inductive unaryop : Type := Invert | Not | UAdd | USub.

(** [type(node.op)], the key looked up in [operators]. *)
Inductive op_class : Type :=
| Binary (op : operator)
| Unary (op : unaryop).

Inductive node : Type :=
| Num (n : Q)
| Name (id : string)
| BinOp (left : node) (op : operator) (right : node)
| UnaryOp (op : unaryop) (operand : node)
| OtherNode (class : string).

(** The classes of [sklearn.gaussian_process.kernels] in the registry. *)
Inductive kernel_class : Type :=
| ConstantKernel | WhiteKernel | RBF | Matern | RationalQuadratic
| ExpSineSquared | DotProduct | PairwiseKernel.

Definition kernels : gmap string kernel_class :=
  list_to_map
    [("const", ConstantKernel); ("white", WhiteKernel); ("rbf", RBF);
     ("mat", Matern); ("rq", RationalQuadratic); ("esn", ExpSineSquared);
     ("dp", DotProduct); ("pw", PairwiseKernel)]%string.

Inductive exn : Type :=
| ValueError (msg : string)
| KeyError_kernels (key : pyval)
| KeyError_operators (key : op_class)
| TypeError_node (n : node)
| TypeError_arguments (key : op_class)
| AssertionError
| SyntaxError (source : string)
| LibraryError (msg : string).

Inductive result (A : Type) : Type :=
| Ok (a : A)
| Raise (e : exn).
Arguments Ok {A}.
Arguments Raise {A}.

(** Parameter sets are Python dicts, shared by reference: the table maps an
    identifier to the address of its parameter set, and the heap holds the
    sets. An address the heap does not hold reads as the empty set. *)
Definition loc : Type := nat.

(** A computation that may mutate the heap and may raise. What was mutated
    before an exception stays mutated. *)
Definition M (A : Type) : Type :=
  gmap loc (gmap string pyval) -> result A * gmap loc (gmap string pyval).

Definition ret {A} (a : A) : M A := fun h => (Ok a, h).
Definition raise {A} (e : exn) : M A := fun h => (Raise e, h).
Definition lift {A} (r : result A) : M A := fun h => (r, h).
Definition bind {A B} (c : M A) (k : A -> M B) : M B :=
  fun h => match c h with
           | (Ok a, h') => k a h'
           | (Raise e, h') => (Raise e, h')
           end.

Notation "x <- c1 ;; c2" := (bind c1 (fun x => c2))
  (at level 100, c1 at next level, right associativity).

(** [params.pop(key, dflt)] *)
Definition pop (params : loc) (key : string) (dflt : pyval) : M pyval :=
  fun h => (Ok (default dflt (default ∅ (h !! params) !! key)),
            alter (delete key) params h).

(** The entries of [params], as [**params] passes them. *)
Definition read (params : loc) : M (gmap string pyval) :=
  fun h => (Ok (default ∅ (h !! params)), h).

(** [kernels[kernel_type]] *)
Definition kernels_getitem (kernel_type : pyval) : M kernel_class :=
  match kernel_type with
  | PStr s => match kernels !! s with
              | Some c => ret c
              | None => raise (KeyError_kernels kernel_type)
              end
  | PNum _ => raise (KeyError_kernels kernel_type)
  end.

(** The message of the [ValueError] for an unknown identifier. *)
Definition error_message (kernel_expr id : string) : string :=
  "Error while parsing `" +:+ kernel_expr +:+ "`: `" +:+ id
  +:+ "` is not a valid key in kernel_params. To use RBF kernel with default parameters, specify suppress=True.".

Section Eval.

(** What the kernel library provides: its values, how a number literal
    enters them, the constructors, and [+], [*], [**]. *)
Variable V : Type.
Variable num : Q -> V.
Variable construct : kernel_class -> gmap string pyval -> result V.
Variables op_add op_mul op_pow : V -> V -> result V.
(** [ast.parse(kernel_expr, mode='eval').body]; [None] is a syntax error. *)
Variable parse : string -> option node.

(** The arguments of [smooth_expression] that [_eval] reads. *)
Variable kernel_params : gmap string loc.
Variable kernel_default_params : loc.
Variable suppress : bool.

Definition operators (key : op_class) : option (V -> V -> result V) :=
  match key with
  | Binary Add => Some op_add
  | Binary Mult => Some op_mul
  | Binary Pow => Some op_pow
  | _ => None
  end.

Fixpoint _eval (kernel_expr : string) (n : node) : M V :=
  match n with
  | Num n => ret (num n)
  | Name id =>
      if negb suppress && bool_decide (kernel_params !! id = None)
      then raise (ValueError (error_message kernel_expr id))
      else
        let params := default kernel_default_params (kernel_params !! id) in
        kernel_type <- pop params "type" (PStr "rbf") ;;
        class <- kernels_getitem kernel_type ;;
        kwargs <- read params ;;
        lift (construct class kwargs)
  | BinOp l op r =>
      match operators (Binary op) with
      | None => raise (KeyError_operators (Binary op))
      | Some f =>
          a <- _eval kernel_expr l ;;
          b <- _eval kernel_expr r ;;
          lift (f a b)
      end
  | UnaryOp op operand =>
      match operators (Unary op) with
      | None => raise (KeyError_operators (Unary op))
      | Some f =>
          a <- _eval kernel_expr operand ;;
          raise (TypeError_arguments (Unary op))
      end
  | OtherNode _ => raise (TypeError_node n)
  end.

(** The [mode == 'gp'] branch of [smooth_expression] up to the kernel:
    choose the expression, parse it, evaluate it. *)
Definition gp_kernel (kernel_expr : option string) : M V :=
  kernel_expr <- match kernel_expr with
                 | Some e => ret e
                 | None =>
                     if bool_decide (size kernel_params = 1%nat)
                     then match map_to_list kernel_params with
                          | [(key, _)] => ret key
                          | _ => raise (ValueError "unpack")
                          end
                     else raise AssertionError
                 end ;;
  match parse kernel_expr with
  | None => raise (SyntaxError kernel_expr)
  | Some body => _eval kernel_expr body
  end.

End Eval.

(** [id] occurs in the expression. *)
Fixpoint occurs (id : string) (n : node) : Prop :=
  match n with
  | Name id' => id' = id
  | BinOp l _ r => occurs id l \/ occurs id r
  | UnaryOp _ operand => occurs id operand
  | Num _ | OtherNode _ => False
  end.

(** The leftmost leaf of an expression built with [+], [*] and [**]. *)
Fixpoint leftmost (id : string) (n : node) : Prop :=
  match n with
  | Name id' => id' = id
  | BinOp l (Add | Mult | Pow) _ => leftmost id l
  | _ => False
  end.

(** [part] occurs in [msg]. *)
Definition names (msg part : string) : Prop :=
  exists pre post : string, msg = (pre +:+ part +:+ post)%string.

(** The heap [h'] is [h] with the [type] entry removed from some of its
    parameter sets, and nothing else changed. *)
Definition type_consumed (h h' : gmap loc (gmap string pyval)) : Prop :=
  forall l : loc, h' !! l = h !! l \/ h' !! l = delete "type" <$> h !! l.

End Evaluator.

(** ** The objects scikit-learn's kernel operators build *)

Module SKLearn.
Import Evaluator.

(** A Python number, kept as written: a literal or the arithmetic Python
    does on two numbers. *)
Inductive number : Type :=
| Lit (q : Q)
| Arith (op : operator) (a b : number).

Inductive value : Type :=
| VNum (n : number)
| VKernel (k : kernel)
with kernel : Type :=
| Init (class : kernel_class) (kwargs : gmap string pyval)
| Constant (constant_value : number)
| Sum (k1 k2 : kernel)
| Product (k1 k2 : kernel)
| Exponentiation (k : kernel) (exponent : value).

(** The keyword arguments each constructor accepts. *)
Definition parameters (class : kernel_class) : list string :=
  match class with
  | ConstantKernel => ["constant_value"; "constant_value_bounds"]
  | WhiteKernel => ["noise_level"; "noise_level_bounds"]
  | RBF => ["length_scale"; "length_scale_bounds"]
  | Matern => ["length_scale"; "length_scale_bounds"; "nu"]
  | RationalQuadratic =>
      ["length_scale"; "alpha"; "length_scale_bounds"; "alpha_bounds"]
  | ExpSineSquared =>
      ["length_scale"; "periodicity"; "length_scale_bounds"; "periodicity_bounds"]
  | DotProduct => ["sigma_0"; "sigma_0_bounds"]
  | PairwiseKernel => ["gamma"; "gamma_bounds"; "metric"; "pairwise_kernels_kwargs"]
  end%string.

Definition construct (class : kernel_class) (kwargs : gmap string pyval) : result value :=
  if bool_decide (dom kwargs ⊆ list_to_set (parameters class))
  then Ok (VKernel (Init class kwargs))
  else Raise (LibraryError "__init__() got an unexpected keyword argument").

(** [Kernel.__add__] and [Kernel.__radd__]: a number is wrapped in a
    [ConstantKernel]. *)
Definition op_add (a b : value) : result value :=
  match a, b with
  | VKernel k1, VKernel k2 => Ok (VKernel (Sum k1 k2))
  | VKernel k1, VNum n => Ok (VKernel (Sum k1 (Constant n)))
  | VNum n, VKernel k2 => Ok (VKernel (Sum (Constant n) k2))
  | VNum n, VNum m => Ok (VNum (Arith Add n m))
  end.

(** [Kernel.__mul__] and [Kernel.__rmul__] *)
Definition op_mul (a b : value) : result value :=
  match a, b with
  | VKernel k1, VKernel k2 => Ok (VKernel (Product k1 k2))
  | VKernel k1, VNum n => Ok (VKernel (Product k1 (Constant n)))
  | VNum n, VKernel k2 => Ok (VKernel (Product (Constant n) k2))
  | VNum n, VNum m => Ok (VNum (Arith Mult n m))
  end.

(** [Kernel.__pow__] stores the exponent as it is; there is no
    [__rpow__]. *)
Definition op_pow (a b : value) : result value :=
  match a, b with
  | VKernel k, _ => Ok (VKernel (Exponentiation k b))
  | VNum n, VNum m => Ok (VNum (Arith Pow n m))
  | VNum _, VKernel _ =>
      Raise (LibraryError "unsupported operand type(s) for ** or pow()")
  end.

Definition _eval := _eval value (fun q => VNum (Lit q)) construct op_add op_mul op_pow.
Definition gp_kernel := gp_kernel value (fun q => VNum (Lit q)) construct op_add op_mul op_pow.

(** The parses of the expressions used in the examples below. *)
Definition parse (source : string) : option node :=
  if String.eqb source "k" then Some (Name "k")
  else if String.eqb source "2" then Some (Num 2)
  else if String.eqb source "k ** j" then Some (BinOp (Name "k") Pow (Name "j"))
  else if String.eqb source "k + white" then Some (BinOp (Name "k") Add (Name "white"))
  else if String.eqb source "-u" then Some (UnaryOp USub (Name "u"))
  else if String.eqb source "u" then Some (Name "u")
  else None.

(** A caller's table with one white-noise kernel, and one with two kernels
    that take every default. *)
Definition white_table : gmap string loc := {["k" := 0%nat]}.
Definition white_heap : gmap loc (gmap string pyval) :=
  {[0%nat := {["type" := PStr "white"; "noise_level" := PNum 1]}]}.
Definition two_table : gmap string loc := {["k" := 0%nat; "j" := 1%nat]}.
Definition two_heap : gmap loc (gmap string pyval) := {[0%nat := ∅; 1%nat := ∅]}.

End SKLearn.

(** ** [smooth_expression]: the choice of the regressor *)

Module Smooth.
Import Evaluator.

(** [gamma] of [KernelRidge]: the caller's, or [1 / (2 * length_scale ** 2)]
    for the length scale read from [kernel_default_params]. The arithmetic
    is Python's and is not carried out here. *)
Inductive gamma_arg : Type :=
| GammaGiven (gamma : pyval)
| GammaFromLengthScale (length_scale : pyval).

(** [alpha] of [GaussianProcessRegressor]: the caller's, or [np.std(y)]. *)
Inductive alpha_arg : Type :=
| AlphaGiven (alpha : pyval)
| AlphaStd.

(** The model [smooth_expression] builds and then fits. *)
Inductive regressor (V : Type) : Type :=
| KernelRidge (gamma : gamma_arg) (kwargs : gmap string pyval)
| GaussianProcessRegressor (kernel : V) (alpha : alpha_arg)
    (optimizer : option pyval) (kwargs : gmap string pyval).
Arguments KernelRidge {V}.
Arguments GaussianProcessRegressor {V}.

(** [params.get(key, dflt)] *)
Definition get (params : loc) (key : string) (dflt : pyval) : M pyval :=
  fun h => (Ok (default dflt (default ∅ (h !! params) !! key)), h).

Section Smooth.

Variable V : Type.
Variable num : Q -> V.
Variable construct : kernel_class -> gmap string pyval -> result V.
Variables op_add op_mul op_pow : V -> V -> result V.
Variable parse : string -> option node.

(** [smooth_expression] from the mode dispatch to the construction of the
    model; [opt_params] is the dict of the extra keyword arguments. *)
Definition smooth_expression (mode : string)
    (kernel_params : gmap string loc) (kernel_default_params : loc)
    (kernel_expr : option string) (suppress : bool)
    (opt_params : gmap string pyval) : M (regressor V) :=
  if String.eqb mode "krr" then
    match opt_params !! "gamma" with
    | Some gamma => ret (KernelRidge (GammaGiven gamma) (delete "gamma" opt_params))
    | None =>
        length_scale <- get kernel_default_params "length_scale" (PNum (1 # 5)) ;;
        ret (KernelRidge (GammaFromLengthScale length_scale) (delete "gamma" opt_params))
    end
  else if String.eqb mode "gp" then
    kernel <- gp_kernel V num construct op_add op_mul op_pow parse
                kernel_params kernel_default_params suppress kernel_expr ;;
    let alpha := match opt_params !! "alpha" with
                 | Some alpha => AlphaGiven alpha
                 | None => AlphaStd
                 end in
    ret (GaussianProcessRegressor kernel alpha None
           (delete "optimizer" (delete "alpha" opt_params)))
  else raise (ValueError "Uknown type: `<class 'type'>`.").

(** The call in [check_cons]:
    [smooth_expression(..., mode=mode, kernel_params=dict(k=dict(length_scale=length_scale)))].
    The inner dict is a new object; [kernel_default_params] is the default
    dict of [smooth_expression]. *)
Definition check_cons_smooth (kernel_default_params : loc) (mode : string)
    (length_scale : pyval) : M (regressor V) :=
  fun h =>
    let params := fresh (dom h) in
    smooth_expression mode {["k" := params]} kernel_default_params None false ∅
      (<[params := {["length_scale" := length_scale]}]> h).

End Smooth.

End Smooth.

(** ** [check_cons]: the genes to plot *)

Module CheckCons.

(** [np.array(l)[mask]]: the entries of [l] at which [mask] is true. *)
Definition mask_index {A} (l : list A) (mask : list bool) : list A :=
  (filter (fun p => p.2 = true) (zip l mask)).*1.

(** The block that fixes [genes]. [var] lists [adata.var_names] with the
    column [adata.var['velocity_genes']]. The second component is what the
    block prints as missing, if it prints. *)
Definition select_genes (var : list (string * bool)) (genes : option (list string))
    (n_velocity_genes : nat) : list string * option (list string) :=
  match genes with
  | None => (take n_velocity_genes (filter (fun p => p.2 = true) var).*1, None)
  | Some genes =>
      let genes_indicator := (fun gene => bool_decide (gene ∈ var.*1)) <$> genes in
      if forallb id genes_indicator then (genes, None)
      else (mask_index genes genes_indicator,
            Some (mask_index genes (negb <$> genes_indicator)))
  end.

End CheckCons.

(** ** [interactive_histograms]: argument checks, plot loop and toggles *)

Module Histograms.

Inductive error : Type :=
| ValueError (msg : string)
| IndexError.

Inductive outcome (A : Type) : Type :=
| Done (a : A)
| Fail (e : error).
Arguments Done {A}.
Arguments Fail {A}.

(** What the checks read of the annotated data object. *)
Record anndata : Type := AnnData {
  obs_keys : list string;
  var_keys : list string;
  var_names : list string
}.

(** The three checks on [bins], [min_bins], [max_bins]. *)
Definition check_bins (bins min_bins max_bins : Z) : outcome unit :=
  if (min_bins <? 1)%Z then
    Fail (ValueError ("Expected min_bins >= 1, got min_bins=" +:+ pretty min_bins +:+ "."))
  else if (max_bins <? min_bins)%Z then
    Fail (ValueError ("Expected min_bins <= max_bins, got min_bins=" +:+ pretty min_bins
                      +:+ ", max_bins=" +:+ pretty max_bins +:+ "."))
  else if negb ((bins >=? min_bins)%Z && (bins <=? max_bins)%Z) then
    Fail (ValueError ("Expected min_bins <= bins <= max_bins, got min_bins="
                      +:+ pretty min_bins +:+ ", bins=" +:+ pretty bins
                      +:+ ", max_bins=" +:+ pretty max_bins +:+ "."))
  else Done tt.

(** The loop that checks the keys. *)
Fixpoint check_keys (adata : anndata) (keys : list string) : outcome unit :=
  match keys with
  | [] => Done tt
  | key :: keys' =>
      if negb (bool_decide (key ∈ obs_keys adata))
         && negb (bool_decide (key ∈ var_keys adata))
         && negb (bool_decide (key ∈ var_names adata))
      then Fail (ValueError ("The key `" +:+ key
                             +:+ "` does not exist in adata.obs, adata.var or adata.var_names."))
      else check_keys adata keys'
  end.

Definition check_input (adata : anndata) (keys : list string)
    (bins min_bins max_bins : Z) : outcome unit :=
  match check_bins bins min_bins max_bins with
  | Done _ => check_keys adata keys
  | Fail e => Fail e
  end.

(** The loop over the groups of one key, as far as it numbers and colours
    the plots: [groups] holds [ad.n_obs] of each zipped group, [j] is the
    index [enumerate] gives, and [plots] the ids appended to [plot_ids] so
    far with their colours. *)
Fixpoint plot_loop {C} (palette : list C) (j : nat) (groups : list nat)
    (plots : list (nat * C)) : outcome (list (nat * C)) :=
  match groups with
  | [] => Done plots
  | n_obs :: groups' =>
      if (n_obs =? 0)%nat then plot_loop palette (S j) groups' plots
      else match palette !! (length (plots.*1 ++ [j]) - 1)%nat with
           | Some color => plot_loop palette (S j) groups' (plots ++ [(j, color)])
           | None => Fail IndexError
           end
  end.

(** The state the two generated JavaScript callbacks work on: [cb.active]
    and [p_j.visible] of the plots in [plot_map]. *)
Record panel : Type := Panel {
  cb_active : list nat;
  p_visible : gmap nat bool
}.

(** [p_j.visible = b;] for every [j] of [plot_ids] ([code_t], [code_f]). *)
Definition set_visible (plot_ids : list nat) (b : bool) (visible : gmap nat bool)
    : gmap nat bool :=
  foldl (fun m p_id => <[p_id := b]> m) visible plot_ids.

(** The callback of the button. [len(plot_map) - 1] is the number of plots:
    [plot_map] holds one entry per plot id and the entry ['cb']. *)
Definition button_callback (plot_ids : list nat) (st : panel) : panel :=
  if (length (cb_active st) =? length plot_ids)%nat
  then Panel [] (set_visible plot_ids false (p_visible st))
  else Panel (seq 0 (length plot_ids)) (set_visible plot_ids true (p_visible st)).

(** The callback of the checkbox group:
    [p_{p_id}.visible = cb.active.includes(i);] for [i, p_id] of
    [enumerate(plot_ids)]. *)
Definition checkbox_callback (plot_ids : list nat) (st : panel) : panel :=
  Panel (cb_active st)
    (foldl (fun m p => <[p.2 := bool_decide (p.1 ∈ cb_active st)]> m)
       (p_visible st) (imap pair plot_ids)).

(** The panel when the figure is shown: [active=list(range(n_plots))] and
    every plot visible. *)
Definition initial_panel (n_plots : nat) (plot_ids : list nat) : panel :=
  Panel (seq 0 n_plots) (set_visible plot_ids true ∅).

(** The positions of the groups that have observations. *)
Fixpoint nonempty_ids_from (j : nat) (groups : list nat) : list nat :=
  match groups with
  | [] => []
  | n_obs :: groups' =>
      if (n_obs =? 0)%nat then nonempty_ids_from (S j) groups'
      else j :: nonempty_ids_from (S j) groups'
  end.

Definition nonempty_ids (groups : list nat) : list nat := nonempty_ids_from 0 groups.

End Histograms.

(** ** [multi_link]: the hover callback *)

Module MultiLink.
Section Hover.

(** JavaScript numbers with [isNaN], [>] and the value [NaN]. *)
Variable num : Type.
Variable isNaN : num -> bool.
Variable gtb : num -> num -> bool.
Variable NaN : num.

Inductive js_result : Type :=
| Completed
| TypeError.

(** [(x) => { return isNaN(x) || x > slider.value ? NaN : x; }] *)
Definition threshold (slider_value : num) (x : num) : num :=
  if isNaN x || gtb x slider_value then NaN else x.

(** The callback on [source.data], [slider.value] and the hovered indices
    [cb_data.index['1d'].indices]. A column name is a string, so
    [source.data[first]] reads the column named by the decimal digits of
    [first]. A column that is [undefined] is an absent one here. *)
Definition hover_callback (data : gmap string (list num)) (slider_value : num)
    (indices : list nat) : js_result * gmap string (list num) :=
  match indices with
  | [] => (Completed, data)
  | first :: _ =>
      match data !! pretty first with
      | Some column => (Completed, <["color" := threshold slider_value <$> column]> data)
      | None => (TypeError, delete "color" data)
      end
  end.

End Hover.

(** Numbers for examples: a natural number, or [None] for [NaN]. *)
Definition ex_isNaN (x : option nat) : bool :=
  match x with None => true | Some _ => false end.
Definition ex_gtb (x y : option nat) : bool :=
  match x, y with Some a, Some b => (b <? a)%nat | _, _ => false end.
Definition ex_data : gmap string (list (option nat)) :=
  {["0" := [Some 0%nat; Some 7%nat]; "1" := [Some 7%nat; Some 0%nat]]}.
Definition ex_hover :=
  hover_callback (option nat) ex_isNaN ex_gtb None ex_data (Some 5%nat).

End MultiLink.

(** ** The result of one identifier lookup, and example data *)

Module Lookup.
Import Evaluator.

(** What [_eval] returns for an identifier whose parameter set holds the
    entries [d]: the class is [kernels[d.pop('type', 'rbf')]] and the
    constructor gets the other entries. *)
Definition lookup_result {V : Type}
    (construct : kernel_class -> gmap string pyval -> result V)
    (d : gmap string pyval) : result V :=
  match default (PStr "rbf") (d !! "type") with
  | PStr s => match kernels !! s with
              | Some c => construct c (delete "type" d)
              | None => Raise (KeyError_kernels (PStr s))
              end
  | PNum q => Raise (KeyError_kernels (PNum q))
  end.

(** A table whose only kernel names a type that is not registered. *)
Definition typo_heap : gmap loc (gmap string pyval) :=
  {[0%nat := {["type" := PStr "rbfx"]}]}.

End Lookup.

(** ** [interactive_histograms]: the groups of [_create_adata_groups] *)

Module Groups.
Section Groups.

(** The values of the columns of [adata.obs]; a cell is the row of its
    values, and the data object is the list of its cells. *)
Variable V : Type.
Context `{EqDecision V}.
(** The value ['all']. *)
Variable all : V.

(** [set(adata.obs[g])]: the distinct values of a column. The order in which
    a Python set is iterated is not specified; this is one such order. *)
Definition distinct_values (adata : list (string -> V)) (g : string) : list V :=
  remove_dups ((fun row => row g) <$> adata).

(** [itertools.product] of the sets, the first set varying slowest. *)
Fixpoint product (sets : list (list V)) : list (list V) :=
  match sets with
  | [] => [[]]
  | s :: sets' => v ← s; vals ← product sets'; [v :: vals]
  end.

(** The mask [reduce(lambda l, r: l & r, (adata.obs[k] == v for k, v in
    zip(groups, vals)), True)] at one cell. *)
Definition mask (groups : list string) (vals : list V) (row : string -> V) : bool :=
  forallb (fun kv => bool_decide (row kv.1 = kv.2)) (zip groups vals).

(** [adata[mask]] *)
Definition select (adata : list (string -> V)) (groups : list string) (vals : list V)
    : list (string -> V) :=
  filter (fun row => mask groups vals row = true) adata.

(** [_create_adata_groups]: the value combinations and the data of each. *)
Definition _create_adata_groups (adata : list (string -> V))
    (groups : option (list string)) (display_all : bool)
    : list (list V) * list (list (string -> V)) :=
  match groups with
  | None => ([[all]], [adata])
  | Some groups =>
      let combs := product (distinct_values adata <$> groups) in
      let adatas := (select adata groups <$> combs) ++ [adata] in
      if display_all then (combs ++ [[all]], adatas ++ [adata])
      else (combs, adatas)
  end.

(** [zip(adatas, group_v_combs)], what the loop over the plots goes through. *)
Definition plotted (adata : list (string -> V)) (groups : option (list string))
    (display_all : bool) : list (list (string -> V) * list V) :=
  zip (_create_adata_groups adata groups display_all).2
      (_create_adata_groups adata groups display_all).1.

End Groups.
End Groups.

(** ** [highlight_de]: the checks and the value lists *)

Module HighlightDE.

Inductive error : Type :=
| ValueError (msg : string)
| AssertionError (msg : string).

Inductive outcome (A : Type) : Type :=
| Done (a : A)
| Fail (e : error).
Arguments Done {A}.
Arguments Fail {A}.

(** [s.split(',')] *)
Fixpoint split_go (cur : string) (s : string) : list string :=
  match s with
  | EmptyString => [String.rev cur]
  | String c s' =>
      if Ascii.eqb c ","%char then String.rev cur :: split_go EmptyString s'
      else split_go (String c cur) s'
  end.
Definition split_comma (s : string) : list string := split_go EmptyString s.

(** [str.strip] on ASCII text: the white space of Python below code 128. *)
Definition is_space (c : ascii) : bool :=
  let n := nat_of_ascii c in
  ((9 <=? n) && (n <=? 13) || (28 <=? n) && (n <=? 32))%nat.

Fixpoint lstrip (s : string) : string :=
  match s with
  | EmptyString => EmptyString
  | String c s' => if is_space c then lstrip s' else s
  end.

Definition strip (s : string) : string :=
  String.rev (lstrip (String.rev (lstrip s))).

(** [list(dict.fromkeys(l))]: the first occurrence of each entry, in order. *)
Fixpoint fromkeys_from (seen : list string) (l : list string) : list string :=
  match l with
  | [] => []
  | x :: l' =>
      if bool_decide (x ∈ seen) then fromkeys_from seen l'
      else x :: fromkeys_from (x :: seen) l'
  end.
Definition fromkeys (l : list string) : list string := fromkeys_from [] l.

(** What [highlight_de] reads of the data object: the keys of
    [adata.uns['rank_genes_groups']] with its [params]['groupby'] (if
    differential expression was run), and the keys of [adata.obs] and
    [adata.obsm]. *)
Record anndata : Type := AnnData {
  rank_genes_groups : option (list string * string);
  obs_keys : list string;
  obsm_keys : list string
}.

(** An argument that may be a string, a list, or left to its default. *)
Inductive values_arg : Type :=
| Default
| Text (s : string)
| Items (l : list string).

(** The branch taken when the argument is a string. *)
Definition from_text (keys : list string) (msg : string) (s : string)
    : outcome (list string) :=
  let values := fromkeys (strip <$> split_comma s) in
  if bool_decide (values = [EmptyString]) then Done []
  else if forallb (fun k => bool_decide (k ∈ keys)) values then Done values
  else Fail (AssertionError msg).

(** [highlight_de] up to the insertion of the group key. [default_cell_values]
    is the content of the list object that is the default of [cell_values];
    the function returns [de_values] and [cell_values], and with them the
    content of that default object afterwards. [cell_values.insert(0, key)]
    acts on the list the name is bound to: the default object when the
    argument was left out. *)
Definition prepare (default_cell_values : list string) (adata : anndata)
    (basis : string) (de_values cell_values : values_arg)
    : outcome (list string * list string) * list string :=
  match rank_genes_groups adata with
  | None => (Fail (ValueError "Run differential expression first."), default_cell_values)
  | Some (rank_keys, key) =>
      match
        match de_values with
        | Text s => from_text rank_keys
                      "Not all keys are in `adata.uns['rank_genes_groups']`." s
        | Items l => Done l
        | Default => Done ["names"; "scores"; "pvals_adj"; "logfoldchanges"]
        end
      with
      | Fail e => (Fail e, default_cell_values)
      | Done de =>
          match
            match cell_values with
            | Text s => from_text (obs_keys adata)
                          "Not all keys are in `adata.obs.keys()`." s
            | Items l => Done l
            | Default => Done default_cell_values
            end
          with
          | Fail e => (Fail e, default_cell_values)
          | Done cell =>
              if negb (bool_decide (("X_" +:+ basis) ∈ obsm_keys adata))
              then (Fail (ValueError ("Key `X_" +:+ basis +:+ "` not found in adata.obsm.")),
                    default_cell_values)
              else
                let cell' := if bool_decide (key ∈ cell) then cell else key :: cell in
                (Done (de, cell'),
                 match cell_values with
                 | Default => cell'
                 | _ => default_cell_values
                 end)
          end
      end
  end.

(** Data grouped by ["louvain"], with a UMAP embedding. *)
Definition ex_adata : anndata :=
  AnnData (Some (["names"; "scores"; "params"], "louvain")) ["louvain"; "n_genes"] ["X_umap"].

End HighlightDE.

(** ** Facts about the exact model *)

Module ExactFacts.
Import Exact.

Lemma leb_comparator (a b : Q) :
  Qle_bool (Rebinner.comparator Q Qminus a b) (of_nat 0) = true <-> a <= b.
Proof.
  unfold Rebinner.comparator. change (of_nat 0) with 0. rewrite Qle_bool_iff.
  split; intros H; lra.
Qed.

Lemma sort_insert_perm (a : Q) (l : list Q) :
  Permutation (a :: l) (Rebinner.sort_insert Q Qminus of_nat Qle_bool a l).
Proof.
  induction l as [|b l IH]; simpl.
  - reflexivity.
  - destruct (Qle_bool _ _).
    + reflexivity.
    + rewrite perm_swap. now apply perm_skip.
Qed.

Lemma js_sort_perm (l : list Q) : Permutation l (js_sort l).
Proof.
  induction l as [|a l IH]; simpl.
  - reflexivity.
  - etransitivity; [apply perm_skip, IH | apply sort_insert_perm].
Qed.

Lemma js_sort_length (l : list Q) : length (js_sort l) = length l.
Proof. symmetry. apply Permutation_length, js_sort_perm. Qed.

Lemma sort_insert_sorted (a : Q) (l : list Q) :
  StronglySorted Qle l -> StronglySorted Qle (Rebinner.sort_insert Q Qminus of_nat Qle_bool a l).
Proof.
  induction 1 as [|b l Hs IH Hb]; simpl.
  - repeat constructor.
  - destruct (Qle_bool _ _) eqn:E.
    + apply leb_comparator in E. constructor.
      * now constructor.
      * constructor; [exact E|].
        eapply List.Forall_impl; [|exact Hb]. intros c Hc. simpl in Hc. lra.
    + assert (Hba : b <= a).
      { destruct (Qlt_le_dec b a) as [Hlt|Hle]; [lra|].
        apply leb_comparator in Hle. congruence. }
      constructor; [exact IH|].
      eapply Permutation_Forall; [apply sort_insert_perm|].
      constructor; [exact Hba | exact Hb].
Qed.

Lemma js_sort_sorted (l : list Q) : StronglySorted Qle (js_sort l).
Proof.
  induction l as [|a l IH]; simpl.
  - constructor.
  - now apply sort_insert_sorted.
Qed.

(** Sorting an ascending array changes nothing. *)
Lemma js_sort_fixed (l : list Q) : StronglySorted Qle l -> js_sort l = l.
Proof.
  induction 1 as [|a l Hs IH Ha]; simpl.
  - reflexivity.
  - fold (js_sort l). rewrite IH.
    destruct l as [|b l]; simpl; [reflexivity|].
    apply Forall_inv in Ha. apply leb_comparator in Ha. now rewrite Ha.
Qed.

Lemma js_sort_idempotent (l : list Q) : js_sort (js_sort l) = js_sort l.
Proof. apply js_sort_fixed, js_sort_sorted. Qed.

Lemma sorted_first_le (l : list Q) (a : Q) :
  StronglySorted Qle l -> In a l -> nth 0 l 0 <= a.
Proof.
  intros Hs Ha. destruct Hs as [|b l Hs Hb]; [contradiction|].
  simpl. destruct Ha as [->|Ha]; [lra|].
  rewrite List.Forall_forall in Hb. now apply Hb.
Qed.

Lemma sorted_last_ge (l : list Q) (a : Q) :
  StronglySorted Qle l -> In a l -> a <= nth (length l - 1) l 0.
Proof.
  intros Hs. revert a.
  induction Hs as [|b l Hs IH Hb]; intros a Ha; [contradiction|].
  destruct l as [|c l].
  - destruct Ha as [->|[]]. simpl. lra.
  - replace (length (b :: c :: l) - 1)%nat with (S (length (c :: l) - 1)) by (simpl; lia).
    change (nth (S ?n) (b :: ?t) 0) with (nth n t 0).
    destruct Ha as [->|Ha]; [|now apply IH].
    apply Qle_trans with c; [now apply Forall_inv in Hb|].
    apply IH. now left.
Qed.

(** *** Minimum and maximum of the samples *)

Lemma fold_min_le (l : list Q) (a b : Q) :
  In b (a :: l) -> fold_left Qmin l a <= b.
Proof.
  revert a b. induction l as [|c l IH]; intros a b Hb; simpl.
  - destruct Hb as [->|[]]. lra.
  - destruct Hb as [->|[->|Hb]].
    + apply Qle_trans with (Qmin b c); [apply IH; now left | apply Q.le_min_l].
    + apply Qle_trans with (Qmin a b); [apply IH; now left | apply Q.le_min_r].
    + apply IH. now right.
Qed.

Lemma fold_max_ge (l : list Q) (a b : Q) :
  In b (a :: l) -> b <= fold_left Qmax l a.
Proof.
  revert a b. induction l as [|c l IH]; intros a b Hb; simpl.
  - destruct Hb as [->|[]]. lra.
  - destruct Hb as [->|[->|Hb]].
    + apply Qle_trans with (Qmax b c); [apply Q.le_max_l | apply IH; now left].
    + apply Qle_trans with (Qmax a b); [apply Q.le_max_r | apply IH; now left].
    + apply IH. now right.
Qed.

Lemma fold_min_in (l : list Q) (a : Q) :
  exists b, In b (a :: l) /\ b == fold_left Qmin l a.
Proof.
  revert a. induction l as [|c l IH]; intros a; simpl.
  - exists a. split; [now left | reflexivity].
  - destruct (IH (Qmin a c)) as (b & [<-|Hb] & Hbe).
    + destruct (Q.min_dec a c) as [E|E].
      * exists a. split; [now left|]. rewrite <- Hbe. now rewrite E.
      * exists c. split; [right; now left|]. rewrite <- Hbe. now rewrite E.
    + exists b. split; [right; now right | exact Hbe].
Qed.

Lemma fold_max_in (l : list Q) (a : Q) :
  exists b, In b (a :: l) /\ b == fold_left Qmax l a.
Proof.
  revert a. induction l as [|c l IH]; intros a; simpl.
  - exists a. split; [now left | reflexivity].
  - destruct (IH (Qmax a c)) as (b & [<-|Hb] & Hbe).
    + destruct (Q.max_dec a c) as [E|E].
      * exists a. split; [now left|]. rewrite <- Hbe. now rewrite E.
      * exists c. split; [right; now left|]. rewrite <- Hbe. now rewrite E.
    + exists b. split; [right; now right | exact Hbe].
Qed.

Lemma nth_In_nonempty (l : list Q) (i : nat) :
  l <> [] -> (i <= length l - 1)%nat -> In (nth i l 0) l.
Proof.
  intros Hl Hi. apply nth_In. destruct l; [congruence | simpl in *; lia].
Qed.

(** After sorting, the first element is the minimum of the samples. *)
Lemma sorted_first_min (l : list Q) :
  l <> [] -> nth 0 (js_sort l) 0 == Qmin_list l.
Proof.
  intros Hl. assert (Hs : js_sort l <> []).
  { intros E. apply Hl. apply Permutation_nil. rewrite <- E. symmetry. apply js_sort_perm. }
  apply Qle_antisym.
  - destruct l as [|a l]; [congruence|]. unfold Qmin_list.
    destruct (fold_min_in l a) as (b & Hb & <-).
    apply sorted_first_le; [apply js_sort_sorted|].
    eapply Permutation_in; [apply js_sort_perm | exact Hb].
  - assert (Hin : In (nth 0 (js_sort l) 0) l).
    { eapply Permutation_in; [symmetry; apply js_sort_perm|].
      apply nth_In_nonempty; [exact Hs | lia]. }
    destruct l as [|a l]; [congruence|]. now apply fold_min_le.
Qed.

(** After sorting, the last element is the maximum of the samples. *)
Lemma sorted_last_max (l : list Q) :
  l <> [] -> nth (length (js_sort l) - 1) (js_sort l) 0 == Qmax_list l.
Proof.
  intros Hl. assert (Hs : js_sort l <> []).
  { intros E. apply Hl. apply Permutation_nil. rewrite <- E. symmetry. apply js_sort_perm. }
  apply Qle_antisym.
  - assert (Hin : In (nth (length (js_sort l) - 1) (js_sort l) 0) l).
    { eapply Permutation_in; [symmetry; apply js_sort_perm|].
      apply nth_In_nonempty; [exact Hs | lia]. }
    destruct l as [|a l]; [congruence|]. now apply fold_max_ge.
  - destruct l as [|a l]; [congruence|]. unfold Qmax_list.
    destruct (fold_max_in l a) as (b & Hb & <-).
    apply sorted_last_ge; [apply js_sort_sorted|].
    eapply Permutation_in; [apply js_sort_perm | exact Hb].
Qed.

(** *** Arrays built by index *)

Lemma array_init_length (n : nat) (f : nat -> Q) : length (Rebinner.array_init Q n f) = n.
Proof. unfold Rebinner.array_init. now rewrite length_map, length_seq. Qed.

Lemma array_init_nth (n : nat) (f : nat -> Q) (j : nat) (d : Q) :
  (j < n)%nat -> nth j (Rebinner.array_init Q n f) d = f j.
Proof.
  intros Hj. unfold Rebinner.array_init.
  rewrite (nth_indep _ d (f 0%nat)) by now rewrite length_map, length_seq.
  rewrite map_nth. now rewrite seq_nth.
Qed.

Lemma imap_nth (f : nat -> Q -> Q) (l : list Q) (j : nat) (d : Q) :
  (j < length l)%nat -> nth j (imap f l) d = f j (nth j l d).
Proof.
  intros Hj. rewrite !nth_lookup, list_lookup_imap.
  destruct (lookup_lt_is_Some_2 l j Hj) as [c ->]. reflexivity.
Qed.

Lemma of_nat_pos (n : nat) : (1 <= n)%nat -> 0 < of_nat n.
Proof.
  intros Hn. unfold of_nat. change 0 with (inject_Z 0).
  rewrite <- Zlt_Qlt. lia.
Qed.

Lemma of_nat_succ (n : nat) : of_nat (n + 1) == of_nat n + 1.
Proof.
  unfold of_nat. rewrite Nat2Z.inj_add, inject_Z_plus. reflexivity.
Qed.

Lemma l_edges_length x n : length (l_edges x n) = n.
Proof. apply array_init_length. Qed.

Lemma r_edges_length x n : length (r_edges x n) = n.
Proof. apply array_init_length. Qed.

Lemma l_edges_nth x n j :
  (j < n)%nat -> nth j (l_edges x n) 0 = nth 0 x 0 + bin_size x n * of_nat j.
Proof. intros Hj. unfold l_edges, Rebinner.l_edges. now rewrite array_init_nth. Qed.

Lemma r_edges_nth x n j :
  (j < n)%nat -> nth j (r_edges x n) 0 = nth 0 x 0 + bin_size x n * of_nat (j + 1).
Proof. intros Hj. unfold r_edges, Rebinner.r_edges. now rewrite array_init_nth. Qed.

(** In exact arithmetic the last right edge is the last (largest) sample. *)
Lemma r_edges_last x n :
  (1 <= n)%nat -> nth (n - 1) (r_edges x n) 0 == nth (length x - 1) x 0.
Proof.
  intros Hn. rewrite r_edges_nth by lia.
  replace (n - 1 + 1)%nat with n by lia.
  unfold bin_size, Rebinner.bin_size, Rebinner.js_get, undef.
  pose proof (of_nat_pos n Hn). field. lra.
Qed.

Lemma deltas_length x n : length (deltas x n) = n.
Proof. unfold deltas, Rebinner.deltas. rewrite length_imap. apply r_edges_length. Qed.

(** Every bin has the width [bin_size]. *)
Lemma deltas_nth x n j :
  (j < n)%nat -> nth j (deltas x n) 0 == bin_size x n.
Proof.
  intros Hj. unfold deltas, Rebinner.deltas.
  rewrite imap_nth by (fold (r_edges x n); now rewrite r_edges_length).
  unfold Rebinner.js_get. fold (l_edges x n) (r_edges x n). change undef with 0.
  rewrite l_edges_nth, r_edges_nth by exact Hj.
  rewrite of_nat_succ. ring.
Qed.

(** *** The membership loop *)

Lemma find_bin_found (xi : Q) (edges : list Q) (k : nat) :
  (exists r, In r edges /\ xi <= r) ->
  exists j, Rebinner.find_bin Q Qle_bool xi edges k = Some j
            /\ (k <= j < k + length edges)%nat.
Proof.
  revert k. induction edges as [|r edges IH]; intros k (r0 & Hin & Hle).
  - contradiction.
  - simpl. destruct (Qle_bool xi r) eqn:E.
    + exists k. split; [reflexivity | lia].
    + destruct Hin as [->|Hin].
      * apply Qle_bool_iff in Hle. congruence.
      * destruct (IH (S k)) as (j & Hj & Hb); [now exists r0|].
        exists j. split; [exact Hj | lia].
Qed.

Lemma fold_left_Qplus (l : list Q) (a : Q) : fold_left Qplus l a == a + Qsum l.
Proof.
  revert a. induction l as [|c l IH]; intros a; simpl.
  - ring.
  - rewrite IH. ring.
Qed.

Lemma js_sum_Qsum (l : list Q) : js_sum l == Qsum l.
Proof.
  unfold js_sum, Rebinner.js_sum. rewrite fold_left_Qplus.
  change (of_nat 0) with 0. ring.
Qed.

Lemma Qsum_alter (l : list Q) (j : nat) :
  (j < length l)%nat ->
  Qsum (alter (fun c => c + of_nat 1) j l) == Qsum l + 1.
Proof.
  revert j. induction l as [|c l IH]; intros j Hj; simpl in Hj; [lia|].
  destruct j as [|j].
  - simpl. change (of_nat 1) with 1. ring.
  - change (Qsum (alter (fun c => c + of_nat 1) (S j) (c :: l)))
      with (c + Qsum (alter (fun c => c + of_nat 1) j l)).
    rewrite IH by lia. simpl. ring.
Qed.

(** A sample that some edge admits is counted exactly once. *)
Lemma count_sample_sum (edges hist : list Q) (xi : Q) :
  length hist = length edges ->
  (exists r, In r edges /\ xi <= r) ->
  length (Rebinner.count_sample Q Qplus of_nat Qle_bool edges hist xi) = length hist
  /\ Qsum (Rebinner.count_sample Q Qplus of_nat Qle_bool edges hist xi) == Qsum hist + 1.
Proof.
  intros Hlen Hex. unfold Rebinner.count_sample.
  destruct (find_bin_found xi edges 0 Hex) as (j & -> & Hj).
  split; [apply length_alter | apply Qsum_alter; lia].
Qed.

Lemma count_loop_sum (edges : list Q) (xs hist : list Q) :
  length hist = length edges ->
  List.Forall (fun xi => exists r, In r edges /\ xi <= r) xs ->
  Qsum (fold_left (Rebinner.count_sample Q Qplus of_nat Qle_bool edges) xs hist)
  == Qsum hist + of_nat (length xs).
Proof.
  intros Hlen Hxs. revert hist Hlen.
  induction Hxs as [|xi xs Hxi Hxs IH]; intros hist Hlen; simpl fold_left.
  - change (of_nat (length [])) with 0. ring.
  - destruct (count_sample_sum edges hist xi Hlen Hxi) as [Hl Hs].
    rewrite IH by congruence. rewrite Hs.
    change (length (xi :: xs)) with (S (length xs)).
    replace (S (length xs)) with (length xs + 1)%nat by lia.
    rewrite of_nat_succ. ring.
Qed.

Lemma count_loop_length (edges : list Q) (xs hist : list Q) :
  length (fold_left (Rebinner.count_sample Q Qplus of_nat Qle_bool edges) xs hist)
  = length hist.
Proof.
  revert hist. induction xs as [|xi xs IH]; intros hist; simpl; [reflexivity|].
  rewrite IH. unfold Rebinner.count_sample.
  destruct (Rebinner.find_bin _ _ _ _ _); [apply length_alter | reflexivity].
Qed.

Lemma Qsum_zeros (n : nat) : Qsum (Rebinner.array_init Q n (fun _ => of_nat 0)) == 0.
Proof.
  unfold Rebinner.array_init.
  assert (H : forall k, Qsum (map (fun _ : nat => 0) (seq k n)) == 0).
  { induction n as [|n IH]; intros k; simpl; [reflexivity|].
    rewrite IH. ring. }
  apply H.
Qed.

Lemma counts_length x n : length (counts x n) = n.
Proof.
  unfold counts, Rebinner.counts. rewrite count_loop_length.
  apply array_init_length.
Qed.

(** In exact arithmetic every sample of an ascending array finds a bin:
    the counts add up to the number of samples. *)
Lemma counts_total (x : list Q) (n : nat) :
  StronglySorted Qle x -> x <> [] -> (1 <= n)%nat ->
  js_sum (counts x n) == of_nat (length x).
Proof.
  intros Hs Hx Hn. rewrite js_sum_Qsum. unfold counts, Rebinner.counts.
  rewrite count_loop_sum.
  - rewrite Qsum_zeros. ring.
  - now rewrite array_init_length, r_edges_length.
  - apply List.Forall_forall. intros xi Hxi.
    exists (nth (n - 1) (r_edges x n) 0). split.
    + apply nth_In. rewrite r_edges_length. lia.
    + rewrite r_edges_last by exact Hn. now apply sorted_last_ge.
Qed.

(** *** Sums over bins *)

Lemma Qsum_map_ext (f g : nat -> Q) (l : list nat) :
  (forall j, In j l -> f j == g j) -> Qsum (map f l) == Qsum (map g l).
Proof.
  induction l as [|i l IH]; intros H; simpl; [reflexivity|].
  rewrite (H i) by now left. rewrite IH; [reflexivity|].
  intros j Hj. apply H. now right.
Qed.

Lemma Qsum_map_div (f : nat -> Q) (t : Q) (l : list nat) :
  Qsum (map (fun j => f j / t) l) == Qsum (map f l) / t.
Proof.
  induction l as [|i l IH]; simpl.
  - unfold Qdiv. ring.
  - rewrite IH. unfold Qdiv. ring.
Qed.

Lemma map_nth_all (l : list Q) :
  map (fun j => nth j l 0) (seq 0 (length l)) = l.
Proof.
  apply (nth_ext _ _ 0 0).
  - now rewrite length_map, length_seq.
  - intros j Hj. rewrite length_map, length_seq in Hj.
    rewrite (nth_indep _ 0 (nth 0 l 0)) by now rewrite length_map, length_seq.
    rewrite (map_nth (fun j => nth j l 0)). now rewrite seq_nth.
Qed.

Lemma density_length x n : length (density x n) = n.
Proof.
  unfold density, Rebinner.density. rewrite length_imap. apply counts_length.
Qed.

Lemma density_nth x n j :
  (j < n)%nat ->
  nth j (density x n) 0 = nth j (counts x n) 0 / nth j (deltas x n) 0 / js_sum (counts x n).
Proof.
  intros Hj. unfold density, Rebinner.density.
  rewrite imap_nth by (fold (counts x n); now rewrite counts_length).
  reflexivity.
Qed.

(** The bins have a non-zero width when the extreme samples differ. *)
Lemma bin_size_nonzero (x : list Q) (n : nat) :
  (1 <= n)%nat -> ~ nth 0 x 0 == nth (length x - 1) x 0 -> ~ bin_size x n == 0.
Proof.
  intros Hn Hne Hz. apply Hne.
  pose proof (of_nat_pos n Hn) as Hpos.
  assert (E : nth (length x - 1) x 0 - nth 0 x 0 == bin_size x n * of_nat n).
  { unfold bin_size, Rebinner.bin_size, Rebinner.js_get, undef. field. lra. }
  rewrite Hz in E. lra.
Qed.

End ExactFacts.

(** ** The histogram rebinner: properties *)

Module RebinnerSpec.
Import Exact ExactFacts.

(** C1: in exact arithmetic, for a non-empty sample array whose minimum and
    maximum differ and a bin count of at least one, the densities the
    callback stores integrate to one:
    [sum(hist[j] * (r_edges[j] - l_edges[j]) for j) = 1], where
    [hist[j] = counts[j] / (r_edges[j] - l_edges[j]) / sum(counts)]. *)
Theorem density_integrates_to_one (w : widget Q) :
  orig_values w <> [] ->
  ~ Qmin_list (orig_values w) == Qmax_list (orig_values w) ->
  (1 <= bins_value w)%nat ->
  mass (callback w) == 1
  /\ length (source_hist (callback w)) = bins_value w
  /\ forall j, (j < bins_value w)%nat ->
       nth j (source_hist (callback w)) 0
       = nth j (counts (js_sort (orig_values w)) (bins_value w)) 0
         / (nth j (source_r_edges (callback w)) 0 - nth j (source_l_edges (callback w)) 0)
         / js_sum (counts (js_sort (orig_values w)) (bins_value w)).
Proof.
  intros Hne Hmm Hn. destruct w as [xs n h0 l0 r0]. simpl in *.
  fold (js_sort xs).
  fold (density (js_sort xs) n) (l_edges (js_sort xs) n) (r_edges (js_sort xs) n).
  set (x := js_sort xs).
  assert (Hs : StronglySorted Qle x) by apply js_sort_sorted.
  assert (Hx : x <> []).
  { intros E. apply Hne. apply Permutation_nil. rewrite <- E.
    symmetry. apply js_sort_perm. }
  assert (Hbs : ~ bin_size x n == 0).
  { apply bin_size_nonzero; [exact Hn|]. unfold x.
    rewrite sorted_first_min, sorted_last_max by exact Hne. exact Hmm. }
  assert (Htot : js_sum (counts x n) == of_nat (length x))
    by now apply counts_total.
  assert (Hpos : 0 < of_nat (length x)).
  { apply of_nat_pos. destruct x; [congruence | simpl; lia]. }
  assert (Hdelta : forall j, (j < n)%nat ->
            nth j (deltas x n) 0 = nth j (r_edges x n) 0 - nth j (l_edges x n) 0).
  { intros j Hj. unfold deltas, Rebinner.deltas.
    rewrite imap_nth by (fold (r_edges x n); rewrite r_edges_length; lia).
    reflexivity. }
  split; [|split].
  - unfold mass. simpl. fold (js_sort xs). fold x.
    fold (density x n) (l_edges x n) (r_edges x n).
    rewrite density_length.
    rewrite (Qsum_map_ext _ (fun j => nth j (counts x n) 0 / js_sum (counts x n))).
    + rewrite Qsum_map_div.
      rewrite <- (counts_length x n) at 1. rewrite map_nth_all.
      rewrite <- js_sum_Qsum. rewrite Htot. field. lra.
    + intros j Hj. apply in_seq in Hj.
      rewrite density_nth by lia.
      rewrite <- Hdelta by lia. rewrite deltas_nth by lia.
      rewrite Htot. field. split; [lra | exact Hbs].
  - apply density_length.
  - intros j Hj. rewrite density_nth by exact Hj. now rewrite Hdelta.
Qed.

Lemma density_integrates_to_one_witness :
  mass (callback (initial [3; 1; 2] 2)) == 1
  /\ length (source_hist (callback (initial [3; 1; 2] 2))) = 2%nat
  /\ forall j, (j < 2)%nat ->
       nth j (source_hist (callback (initial [3; 1; 2] 2))) 0
       = nth j (counts (js_sort [3; 1; 2]) 2) 0
         / (nth j (source_r_edges (callback (initial [3; 1; 2] 2))) 0
            - nth j (source_l_edges (callback (initial [3; 1; 2] 2))) 0)
         / js_sum (counts (js_sort [3; 1; 2]) 2).
Proof.
  apply (density_integrates_to_one (initial [3; 1; 2] 2)).
  - discriminate.
  - vm_compute. discriminate.
  - simpl. lia.
Defined.

(** C4: in exact arithmetic, for a non-empty sample array and a bin count of
    at least one, the edges the callback stores are contiguous
    ([r_edges[j] = l_edges[j+1]]), the first left edge is at most the
    minimum and the last right edge is at least the maximum of the samples. *)
Theorem edges_partition (w : widget Q) :
  orig_values w <> [] ->
  (1 <= bins_value w)%nat ->
  (forall j, (j + 1 < bins_value w)%nat ->
     nth j (source_r_edges (callback w)) 0 = nth (j + 1) (source_l_edges (callback w)) 0)
  /\ nth 0 (source_l_edges (callback w)) 0 <= Qmin_list (orig_values w)
  /\ Qmax_list (orig_values w)
     <= nth (bins_value w - 1) (source_r_edges (callback w)) 0.
Proof.
  intros Hne Hn. destruct w as [xs n h0 l0 r0]. simpl in *.
  fold (js_sort xs). fold (l_edges (js_sort xs) n) (r_edges (js_sort xs) n).
  split; [|split].
  - intros j Hj. now rewrite l_edges_nth, r_edges_nth by lia.
  - rewrite l_edges_nth by lia. rewrite sorted_first_min by exact Hne.
    change (of_nat 0) with 0. lra.
  - rewrite r_edges_last by exact Hn. rewrite sorted_last_max by exact Hne. lra.
Qed.

Lemma edges_partition_witness :
  (forall j, (j + 1 < 2)%nat ->
     nth j (source_r_edges (callback (initial [3; 1; 2] 2))) 0
     = nth (j + 1) (source_l_edges (callback (initial [3; 1; 2] 2))) 0)
  /\ nth 0 (source_l_edges (callback (initial [3; 1; 2] 2))) 0 <= Qmin_list [3; 1; 2]
  /\ Qmax_list [3; 1; 2]
     <= nth (2 - 1) (source_r_edges (callback (initial [3; 1; 2] 2))) 0.
Proof.
  apply (edges_partition (initial [3; 1; 2] 2)).
  - discriminate.
  - simpl. lia.
Defined.

(** C2: for the samples [1,1,2,3,3,3,4,5] and four bins the claimed counts
    [2,1,3,2] are not what the membership rule gives. *)
Lemma example_counts_differ :
  ~ Forall2 Qeq (counts (js_sort [1; 1; 2; 3; 3; 3; 4; 5]) 4) [2; 1; 3; 2].
Proof.
  vm_compute. intros H. inversion H as [|a b la lb Hab Hrest]; subst.
  vm_compute in Hab. discriminate.
Qed.

(** C2 (as the code has it): for the samples [1,1,2,3,3,3,4,5] and four
    bins the edges span [1,5] with width 1, the membership rule
    [x <= r_edges[j]] (first such [j]) counts [3,3,1,1], and the densities
    are [counts[j] / 1 / 8]. *)
Theorem example_histogram :
  bin_size (js_sort [1; 1; 2; 3; 3; 3; 4; 5]) 4 == 1
  /\ Forall2 Qeq (source_l_edges (callback (initial [1; 1; 2; 3; 3; 3; 4; 5] 4)))
                 [1; 2; 3; 4]
  /\ Forall2 Qeq (source_r_edges (callback (initial [1; 1; 2; 3; 3; 3; 4; 5] 4)))
                 [2; 3; 4; 5]
  /\ Forall2 Qeq (counts (js_sort [1; 1; 2; 3; 3; 3; 4; 5]) 4) [3; 3; 1; 1]
  /\ Forall2 Qeq (source_hist (callback (initial [1; 1; 2; 3; 3; 3; 4; 5] 4)))
                 [3 / 1 / 8; 3 / 1 / 8; 1 / 1 / 8; 1 / 1 / 8].
Proof.
  repeat split; vm_compute; repeat constructor; discriminate.
Qed.

(** C3: with binary64 numbers the largest sample can miss every bin. For the
    samples [0, 1] and 49 bins the last right edge is below 1, the inner loop
    ends without a hit for the sample 1, and the counts add up to 1 although
    there are two samples. *)
Theorem float_maximum_dropped :
  Float64.r_edges (Float64.js_sort [0; 1]%float) 49 !! 48%nat
    = Some 0x1.fffffffffffffp-1%float
  /\ Float64.find_bin 1%float (Float64.r_edges (Float64.js_sort [0; 1]%float) 49) 0 = None
  /\ Float64.js_sum (Float64.counts (Float64.js_sort [0; 1]%float) 49) = 1%float
  /\ length (Float64.js_sort [0; 1]%float) = 2%nat.
Proof.
  repeat split; vm_compute; reflexivity.
Qed.

(** C6: the callback changes the stored sample array: [2, 1] is stored as
    [1, 2] afterwards. *)
Lemma stored_samples_reordered :
  orig_values (callback (initial [2; 1] 1)) <> [2; 1].
Proof. vm_compute. discriminate. Qed.

(** C6 (as the code has it): the callback sorts the stored sample array in
    place. Afterwards it holds the same samples in ascending order, so it is
    unchanged exactly when it was ascending already; the bin count is not
    touched; and invoking the callback again changes nothing more. *)
Theorem callback_sorts_stored_samples (w : widget Q) :
  Permutation (orig_values w) (orig_values (callback w))
  /\ StronglySorted Qle (orig_values (callback w))
  /\ (orig_values (callback w) = orig_values w <-> StronglySorted Qle (orig_values w))
  /\ bins_value (callback w) = bins_value w
  /\ callback (callback w) = callback w.
Proof.
  destruct w as [xs n h0 l0 r0]. unfold callback, Rebinner.callback. simpl.
  fold (js_sort xs). repeat split.
  - apply js_sort_perm.
  - apply js_sort_sorted.
  - intros E. rewrite <- E. apply js_sort_sorted.
  - apply js_sort_fixed.
  - fold (js_sort (js_sort xs)). now rewrite js_sort_idempotent.
Qed.

End RebinnerSpec.


(** ** The kernel expression evaluator: properties *)

Module EvaluatorSpec.
Import Evaluator.

Lemma type_consumed_refl h : type_consumed h h.
Proof. intros l. now left. Qed.

Lemma type_consumed_trans h1 h2 h3 :
  type_consumed h1 h2 -> type_consumed h2 h3 -> type_consumed h1 h3.
Proof.
  intros H12 H23 l. destruct (H23 l) as [E|E], (H12 l) as [E'|E']; rewrite E, E'.
  - now left.
  - now right.
  - now right.
  - right. destruct (h1 !! l) as [d|]; simpl; [|reflexivity].
    f_equal. apply map_eq. intros key.
    destruct (decide (key = "type")) as [->|Hne].
    + now rewrite !lookup_delete_eq.
    + now rewrite !lookup_delete_ne.
Qed.

Lemma type_consumed_alter h l : type_consumed h (alter (delete "type") l h).
Proof.
  intros l'. destruct (decide (l = l')) as [->|Hne].
  - right. apply lookup_alter_eq.
  - left. now apply lookup_alter_ne.
Qed.

(** A heap none of whose sets has a [type] entry is left as it is. *)
Lemma type_consumed_none h h' :
  (forall l d, h !! l = Some d -> d !! "type" = None) ->
  type_consumed h h' -> h' = h.
Proof.
  intros Hnone Hc. apply map_eq. intros l.
  destruct (Hc l) as [E|E]; rewrite E; [reflexivity|].
  destruct (h !! l) as [d|] eqn:Hd; simpl; [|reflexivity].
  f_equal. apply delete_id. now apply (Hnone l).
Qed.

Lemma append_assoc (s1 s2 s3 : string) :
  ((s1 +:+ s2) +:+ s3 = s1 +:+ (s2 +:+ s3))%string.
Proof.
  induction s1 as [|c s1 IH]; [reflexivity|].
  change (String c ((s1 +:+ s2) +:+ s3) = String c (s1 +:+ (s2 +:+ s3)))%string.
  now rewrite IH.
Qed.

Lemma names_id kernel_expr id : names (error_message kernel_expr id) id.
Proof.
  exists ("Error while parsing `" +:+ kernel_expr +:+ "`: `")%string.
  eexists. unfold error_message.
  rewrite !append_assoc. reflexivity.
Qed.

Lemma names_expr kernel_expr id : names (error_message kernel_expr id) kernel_expr.
Proof.
  exists "Error while parsing `"%string. eexists. unfold error_message.
  reflexivity.
Qed.

Section Generic.

Variable V : Type.
Variable num : Q -> V.
Variable construct : kernel_class -> gmap string pyval -> result V.
Variables op_add op_mul op_pow : V -> V -> result V.
Variable parse : string -> option node.
Variable kernel_params : gmap string loc.
Variable kernel_default_params : loc.

Local Abbreviation eval :=
  (_eval V num construct op_add op_mul op_pow kernel_params kernel_default_params).
Local Abbreviation gp :=
  (gp_kernel V num construct op_add op_mul op_pow parse kernel_params
     kernel_default_params).

(** What evaluating an identifier does. *)
Lemma eval_name suppress kernel_expr id h :
  negb suppress && bool_decide (kernel_params !! id = None) = false ->
  exists r,
    eval suppress kernel_expr (Name id) h
    = (r, alter (delete "type") (default kernel_default_params (kernel_params !! id)) h).
Proof.
  intros Hg. simpl. rewrite Hg.
  unfold bind, pop, kernels_getitem, read, lift, ret, raise.
  destruct (default (PStr "rbf") _) as [s|q]; [|eauto].
  destruct (kernels !! s); eauto.
Qed.

Lemma eval_type_consumed suppress kernel_expr e h :
  type_consumed h (snd (eval suppress kernel_expr e h)).
Proof.
  revert h. induction e as [n|id|l IHl op r IHr|op operand IH|c]; intros h.
  - apply type_consumed_refl.
  - destruct (negb suppress && bool_decide (kernel_params !! id = None)) eqn:Hg.
    + simpl. rewrite Hg. apply type_consumed_refl.
    + destruct (eval_name suppress kernel_expr id h Hg) as [r ->].
      apply type_consumed_alter.
  - destruct op; simpl; try apply type_consumed_refl;
      unfold bind, lift; specialize (IHl h);
      destruct (_eval _ _ _ _ _ _ _ _ _ _ l h) as [[a|x] h1]; simpl in *;
      try exact IHl; specialize (IHr h1);
      destruct (_eval _ _ _ _ _ _ _ _ _ _ r h1) as [[b|x] h2]; simpl in *;
      eapply type_consumed_trans; eauto.
  - simpl. destruct op; apply type_consumed_refl.
  - apply type_consumed_refl.
Qed.

(** C5 (as the code has it): evaluation works on the caller's parameter sets
    themselves. Looking an identifier up removes the [type] entry from the
    matched set (the table's, or the default set) in place; over a whole
    expression the heap changes by such removals and by nothing else, so it
    is unchanged when no set has a [type] entry. *)
Theorem eval_consumes_type suppress kernel_expr e h :
  type_consumed h (snd (eval suppress kernel_expr e h))
  /\ (forall id, suppress = true \/ is_Some (kernel_params !! id) ->
        snd (eval suppress kernel_expr (Name id) h)
        = alter (delete "type")
            (default kernel_default_params (kernel_params !! id)) h)
  /\ ((forall l d, h !! l = Some d -> d !! "type" = None) ->
        snd (eval suppress kernel_expr e h) = h).
Proof.
  split; [apply eval_type_consumed | split].
  - intros id Hid.
    destruct (eval_name suppress kernel_expr id h) as [r ->]; [|reflexivity].
    destruct Hid as [->|[l Hl]]; [reflexivity|].
    rewrite bool_decide_eq_false_2 by congruence. apply andb_false_r.
  - intros Hnone. apply type_consumed_none; [exact Hnone|].
    apply eval_type_consumed.
Qed.

Lemma occurs_raises kernel_expr e id h :
  kernel_params !! id = None -> occurs id e ->
  exists err, fst (eval false kernel_expr e h) = Raise err.
Proof.
  intros Hid. revert h.
  induction e as [n|id'|l IHl op r IHr|op operand IH|c]; intros h Ho; simpl in Ho.
  - contradiction.
  - subst id'. simpl. rewrite bool_decide_eq_true_2 by exact Hid. simpl. eauto.
  - destruct op; simpl; eauto; unfold bind, lift;
      destruct (_eval _ _ _ _ _ _ _ _ _ _ l h) as [[a|x] h1] eqn:El; simpl; eauto;
      destruct (_eval _ _ _ _ _ _ _ _ _ _ r h1) as [[b|x] h2] eqn:Er; simpl; eauto;
      (destruct Ho as [Ho|Ho];
       [ destruct (IHl h Ho) as [err Herr]; rewrite El in Herr; discriminate
       | destruct (IHr h1 Ho) as [err Herr]; rewrite Er in Herr; discriminate ]).
  - destruct op; simpl; eauto.
  - contradiction.
Qed.

Lemma leftmost_raises kernel_expr e id h :
  kernel_params !! id = None -> leftmost id e ->
  eval false kernel_expr e h = (Raise (ValueError (error_message kernel_expr id)), h).
Proof.
  intros Hid.
  induction e as [n|id'|l IHl op r IHr|op operand IH|c]; intros Hl; simpl in Hl;
    try contradiction.
  - subst id'. simpl. now rewrite bool_decide_eq_true_2 by exact Hid.
  - destruct op; try contradiction; simpl; unfold bind; now rewrite IHl.
Qed.

(** C7 (as the code has it): with [suppress = False], an expression in which
    an identifier missing from the table occurs never evaluates to a value;
    when that identifier is the first thing evaluated (the expression is the
    identifier, or it is the leftmost operand under [+], [*], [**]) the error
    is the [ValueError] whose message names the identifier and the whole
    expression, and nothing has been changed. *)
Theorem unknown_identifier_raises kernel_expr e id h :
  kernel_params !! id = None ->
  (occurs id e -> exists err, fst (eval false kernel_expr e h) = Raise err)
  /\ (leftmost id e ->
      exists msg, eval false kernel_expr e h = (Raise (ValueError msg), h)
                  /\ names msg id /\ names msg kernel_expr).
Proof.
  intros Hid. split.
  - now apply occurs_raises.
  - intros Hl. exists (error_message kernel_expr id).
    split; [now apply leftmost_raises | split; [apply names_id | apply names_expr]].
Qed.

(** C9 (as the code has it): an expression that is a number literal evaluates
    to that number, which is returned as the kernel; nothing is raised. *)
Theorem literal_is_returned suppress source n h :
  parse source = Some (Num n) ->
  gp suppress (Some source) h = (Ok (num n), h).
Proof.
  intros Hp. unfold gp_kernel, bind, ret. now rewrite Hp.
Qed.

(** C10: with [mode='gp'] and [kernel_expr=None], a table that does not have
    exactly one entry fails the assertion, and a table with exactly one
    entry has its key parsed and evaluated as the kernel expression. *)
Theorem default_expression_is_the_single_key suppress h :
  (size kernel_params <> 1%nat -> gp suppress None h = (Raise AssertionError, h))
  /\ (size kernel_params = 1%nat ->
      exists key l,
        kernel_params = {[key := l]}
        /\ gp suppress None h
           = match parse key with
             | None => (Raise (SyntaxError key), h)
             | Some body => eval suppress key body h
             end).
Proof.
  split; intros Hsize; unfold gp_kernel, bind, ret, raise.
  - now rewrite bool_decide_eq_false_2 by exact Hsize.
  - rewrite bool_decide_eq_true_2 by exact Hsize.
    pose proof (length_map_to_list kernel_params) as Hlen. rewrite Hsize in Hlen.
    destruct (map_to_list kernel_params) as [|[key l] [|? ?]] eqn:E;
      try discriminate.
    exists key, l. split.
    + rewrite <- (list_to_map_to_list kernel_params), E. simpl.
      apply insert_empty.
    + destruct (parse key); reflexivity.
Qed.

End Generic.

Import SKLearn.

(** C5: evaluating ["k"] takes the [type] entry out of the caller's set, and
    a second evaluation of the same expression against the same table no
    longer builds the white-noise kernel. *)
Lemma caller_table_mutated :
  white_heap !! 0%nat ≫= (.!! "type") = Some (PStr "white")
  /\ snd (SKLearn._eval white_table 1%nat false "k" (Name "k") white_heap) !! 0%nat
       ≫= (.!! "type") = None
  /\ fst (SKLearn._eval white_table 1%nat false "k" (Name "k") white_heap)
     = Ok (VKernel (Init WhiteKernel {["noise_level" := PNum 1]}))
  /\ fst (SKLearn._eval white_table 1%nat false "k" (Name "k")
            (snd (SKLearn._eval white_table 1%nat false "k" (Name "k") white_heap)))
     = Raise (LibraryError "__init__() got an unexpected keyword argument").
Proof. repeat split; vm_compute; reflexivity. Qed.

Lemma unknown_identifier_raises_witness :
  (occurs "u" (Name "u") ->
   exists err, fst (SKLearn._eval ∅ 0%nat false "u" (Name "u") ∅) = Raise err)
  /\ (leftmost "u" (Name "u") ->
      exists msg, SKLearn._eval ∅ 0%nat false "u" (Name "u") ∅
                  = (Raise (ValueError msg), ∅)
                  /\ names msg "u" /\ names msg "u").
Proof.
  apply (unknown_identifier_raises value (fun q => VNum (Lit q)) SKLearn.construct
           SKLearn.op_add SKLearn.op_mul SKLearn.op_pow ∅ 0%nat "u" (Name "u") "u" ∅).
  reflexivity.
Defined.

(** C7: under a unary minus the unknown identifier is never looked at; the
    error is the [KeyError] of the operator table. *)
Lemma negated_unknown_identifier :
  SKLearn.parse "-u" = Some (UnaryOp USub (Name "u"))
  /\ SKLearn.gp_kernel SKLearn.parse ∅ 0%nat false (Some "-u") ∅
     = (Raise (KeyError_operators (Unary USub)), ∅).
Proof. split; reflexivity. Qed.

(** C8 (as the code has it): a binary node with [+], [*] or [**] evaluates
    its left operand, then its right operand, and hands both values to the
    library's operator; the evaluator does not look at the exponent. On two
    kernels the operators build the sum and the product, and [**] on a kernel
    builds the exponentiation with whatever the right operand is. *)
Theorem binop_applies_operator kernel_params dflt suppress kernel_expr l r h h1 h2 a b :
  SKLearn._eval kernel_params dflt suppress kernel_expr l h = (Ok a, h1) ->
  SKLearn._eval kernel_params dflt suppress kernel_expr r h1 = (Ok b, h2) ->
  SKLearn._eval kernel_params dflt suppress kernel_expr (BinOp l Add r) h
  = (SKLearn.op_add a b, h2)
  /\ SKLearn._eval kernel_params dflt suppress kernel_expr (BinOp l Mult r) h
     = (SKLearn.op_mul a b, h2)
  /\ SKLearn._eval kernel_params dflt suppress kernel_expr (BinOp l Pow r) h
     = (SKLearn.op_pow a b, h2)
  /\ (forall k1 k2, a = VKernel k1 -> b = VKernel k2 ->
        SKLearn.op_add a b = Ok (VKernel (Sum k1 k2))
        /\ SKLearn.op_mul a b = Ok (VKernel (Product k1 k2)))
  /\ (forall k1, a = VKernel k1 ->
        SKLearn.op_pow a b = Ok (VKernel (Exponentiation k1 b))).
Proof.
  intros Hl Hr. unfold SKLearn._eval in *. simpl. unfold bind, lift.
  rewrite Hl, Hr. repeat split; try reflexivity.
  - subst. reflexivity.
  - subst. reflexivity.
  - intros k1 ->. reflexivity.
Qed.

Lemma binop_applies_operator_witness :
  SKLearn._eval two_table 2%nat false "k ** j" (BinOp (Name "k") Add (Name "j")) two_heap
  = (SKLearn.op_add (VKernel (Init RBF ∅)) (VKernel (Init RBF ∅)), two_heap)
  /\ SKLearn._eval two_table 2%nat false "k ** j" (BinOp (Name "k") Mult (Name "j")) two_heap
     = (SKLearn.op_mul (VKernel (Init RBF ∅)) (VKernel (Init RBF ∅)), two_heap)
  /\ SKLearn._eval two_table 2%nat false "k ** j" (BinOp (Name "k") Pow (Name "j")) two_heap
     = (SKLearn.op_pow (VKernel (Init RBF ∅)) (VKernel (Init RBF ∅)), two_heap)
  /\ (forall k1 k2, VKernel (Init RBF ∅) = VKernel k1 -> VKernel (Init RBF ∅) = VKernel k2 ->
        SKLearn.op_add (VKernel (Init RBF ∅)) (VKernel (Init RBF ∅)) = Ok (VKernel (Sum k1 k2))
        /\ SKLearn.op_mul (VKernel (Init RBF ∅)) (VKernel (Init RBF ∅))
           = Ok (VKernel (Product k1 k2)))
  /\ (forall k1, VKernel (Init RBF ∅) = VKernel k1 ->
        SKLearn.op_pow (VKernel (Init RBF ∅)) (VKernel (Init RBF ∅))
        = Ok (VKernel (Exponentiation k1 (VKernel (Init RBF ∅))))).
Proof.
  apply (binop_applies_operator two_table 2%nat false "k ** j"
           (Name "k") (Name "j") two_heap two_heap two_heap).
  - vm_compute. reflexivity.
  - vm_compute. reflexivity.
Defined.

(** C8: [k ** j] with two kernel identifiers is not rejected: it evaluates to
    the exponentiation of one kernel by the other. *)
Lemma kernel_exponent_accepted :
  SKLearn.parse "k ** j" = Some (BinOp (Name "k") Pow (Name "j"))
  /\ fst (SKLearn.gp_kernel SKLearn.parse two_table 2%nat false (Some "k ** j") two_heap)
     = Ok (VKernel (Exponentiation (Init RBF ∅) (VKernel (Init RBF ∅)))).
Proof. split; vm_compute; reflexivity. Qed.

Lemma literal_is_returned_witness :
  SKLearn.gp_kernel SKLearn.parse white_table 1%nat false (Some "2") white_heap
  = (Ok (VNum (Lit 2)), white_heap).
Proof.
  apply (literal_is_returned value (fun q => VNum (Lit q)) SKLearn.construct
           SKLearn.op_add SKLearn.op_mul SKLearn.op_pow SKLearn.parse
           white_table 1%nat false "2" 2 white_heap).
  reflexivity.
Defined.

(** C9: the expression ["2"] is not flagged: the number 2 comes back as the
    composed kernel. *)
Lemma bare_literal_accepted :
  SKLearn.parse "2" = Some (Num 2)
  /\ SKLearn.gp_kernel SKLearn.parse ∅ 0%nat false (Some "2") ∅
     = (Ok (VNum (Lit 2)), ∅).
Proof. split; reflexivity. Qed.

End EvaluatorSpec.

(** ** The histogram rebinner: further properties *)

Module RebinnerExtra.
Import Exact ExactFacts.

Section AnyNumbers.

Variable num : Type.
Variable undef : num.
Variables add sub mul div : num -> num -> num.
Variable of_nat : nat -> num.
Variable leb : num -> num -> bool.

Lemma find_bin_from (xi : num) (edges : list num) (k j : nat) :
  Rebinner.find_bin num leb xi edges k = Some j <->
  (k <= j)%nat
  /\ (exists r, edges !! (j - k)%nat = Some r /\ leb xi r = true)
  /\ (forall i r, (i < j - k)%nat -> edges !! i = Some r -> leb xi r = false).
Proof.
  revert k. induction edges as [|e edges IH]; intros k; simpl.
  - split; [discriminate|]. intros (_ & (r & Hr & _) & _). discriminate.
  - destruct (leb xi e) eqn:E.
    + split.
      * intros [= <-]. split; [lia|]. rewrite Nat.sub_diag. split.
        -- exists e. now split.
        -- intros i r Hi. lia.
      * intros (Hk & (r & Hr & Hle) & Hmin). f_equal.
        destruct (j - k)%nat as [|d] eqn:Hd; [lia|].
        specialize (Hmin 0%nat e ltac:(lia) eq_refl). congruence.
    + rewrite IH. split.
      * intros (Hk & (r & Hr & Hle) & Hmin). split; [lia|].
        replace (j - k)%nat with (S (j - S k)) by lia. split.
        -- exists r. now split.
        -- intros [|i] r' Hi Hr'; simpl in Hr'; [congruence|].
           apply (Hmin i); [lia | exact Hr'].
      * intros (Hk & (r & Hr & Hle) & Hmin).
        destruct (j - k)%nat as [|d] eqn:Hd.
        { simpl in Hr. congruence. }
        assert (Hjk : (j - S k)%nat = d) by lia. rewrite Hjk.
        split; [lia|]. split.
        -- exists r. now split.
        -- intros i r' Hi Hr'. apply (Hmin (S i)); [lia | exact Hr'].
Qed.

(** The inner loop of the callback picks the first bin whose right edge
    admits the sample: it stops at [j] exactly when [x <= r_edges[j]] holds
    and fails for every earlier bin; it runs to its end exactly when no
    right edge admits the sample. This holds for any number type. *)
Theorem find_bin_least (xi : num) (edges : list num) :
  (forall j, Rebinner.find_bin num leb xi edges 0 = Some j <->
     (exists r, edges !! j = Some r /\ leb xi r = true)
     /\ (forall i r, (i < j)%nat -> edges !! i = Some r -> leb xi r = false))
  /\ (Rebinner.find_bin num leb xi edges 0 = None <->
      forall r, r ∈ edges -> leb xi r = false).
Proof.
  split.
  - intros j. rewrite find_bin_from, Nat.sub_0_r. split.
    + intros (_ & H1 & H2). now split.
    + intros (H1 & H2). split; [lia | now split].
  - generalize 0%nat. induction edges as [|e edges IH]; intros k; simpl.
    + split; [|reflexivity]. intros _ r Hr. inversion Hr.
    + destruct (leb xi e) eqn:E.
      * split; [discriminate|]. intros H.
        rewrite (H e) in E by apply list_elem_of_here. discriminate.
      * rewrite IH. split.
        -- intros H r Hr. apply elem_of_cons in Hr as [->|Hr]; [exact E | now apply H].
        -- intros H r Hr. apply H. now apply list_elem_of_further.
Qed.

Lemma count_loop_length_any (edges xs hist : list num) :
  length (fold_left (Rebinner.count_sample num add of_nat leb edges) xs hist)
  = length hist.
Proof.
  revert hist. induction xs as [|xi xs IH]; intros hist; simpl; [reflexivity|].
  rewrite IH. unfold Rebinner.count_sample.
  destruct (Rebinner.find_bin _ _ _ _ _); [apply length_alter | reflexivity].
Qed.

(** Whatever the samples (none at all included) and whatever the number
    type, the callback leaves three columns of [bins.value] entries each in
    [source.data], and does not change [bins.value]. *)
Theorem callback_columns_length (w : widget num) :
  length (source_hist (Rebinner.callback num undef add sub mul div of_nat leb w))
  = bins_value w
  /\ length (source_l_edges (Rebinner.callback num undef add sub mul div of_nat leb w))
     = bins_value w
  /\ length (source_r_edges (Rebinner.callback num undef add sub mul div of_nat leb w))
     = bins_value w
  /\ bins_value (Rebinner.callback num undef add sub mul div of_nat leb w)
     = bins_value w.
Proof.
  unfold Rebinner.callback. simpl. repeat split.
  - unfold Rebinner.density. rewrite length_imap. unfold Rebinner.counts.
    rewrite count_loop_length_any. unfold Rebinner.array_init.
    now rewrite length_map, length_seq.
  - unfold Rebinner.l_edges, Rebinner.array_init. now rewrite length_map, length_seq.
  - unfold Rebinner.r_edges, Rebinner.array_init. now rewrite length_map, length_seq.
Qed.

End AnyNumbers.

Lemma list_min_le_max (l : list Q) : l <> [] -> Qmin_list l <= Qmax_list l.
Proof.
  destruct l as [|a l]; [congruence|]. intros _. unfold Qmin_list, Qmax_list.
  apply Qle_trans with a; [apply fold_min_le | apply fold_max_ge]; now left.
Qed.

Lemma of_nat_le (i n : nat) : (i <= n)%nat -> of_nat i <= of_nat n.
Proof. intros H. unfold of_nat. rewrite <- Zle_Qle. lia. Qed.

Lemma bin_size_min_max (xs : list Q) (n : nat) :
  xs <> [] ->
  bin_size (js_sort xs) n == (Qmax_list xs - Qmin_list xs) / of_nat n.
Proof.
  intros Hne. unfold bin_size, Rebinner.bin_size, Rebinner.js_get, undef.
  fold (js_sort xs).
  rewrite sorted_first_min, sorted_last_max by exact Hne. reflexivity.
Qed.

(** In exact arithmetic, for a non-empty sample array and at least one bin,
    every bin has the width [(max - min) / n_bins], its left edge is not
    above its right edge, and every edge lies between the minimum and the
    maximum of the samples. *)
Theorem bins_equal_width (w : widget Q) (j : nat) :
  orig_values w <> [] ->
  (1 <= bins_value w)%nat ->
  (j < bins_value w)%nat ->
  nth j (source_r_edges (callback w)) 0 - nth j (source_l_edges (callback w)) 0
  == (Qmax_list (orig_values w) - Qmin_list (orig_values w)) / of_nat (bins_value w)
  /\ nth j (source_l_edges (callback w)) 0 <= nth j (source_r_edges (callback w)) 0
  /\ Qmin_list (orig_values w) <= nth j (source_l_edges (callback w)) 0
  /\ nth j (source_r_edges (callback w)) 0 <= Qmax_list (orig_values w).
Proof.
  intros Hne Hn Hj. destruct w as [xs n h0 l0 r0]. simpl in *.
  fold (js_sort xs). fold (l_edges (js_sort xs) n) (r_edges (js_sort xs) n).
  rewrite l_edges_nth, r_edges_nth by exact Hj.
  pose proof (bin_size_min_max xs n Hne) as Hbs.
  pose proof (sorted_first_min xs Hne) as Hfirst.
  pose proof (list_min_le_max xs Hne) as Hmm.
  pose proof (of_nat_pos n Hn) as Hpos.
  pose proof (of_nat_le (j + 1) n ltac:(lia)) as Hjn.
  pose proof (of_nat_le 0 j ltac:(lia)) as Hj0. change (of_nat 0) with 0 in Hj0.
  rewrite of_nat_succ in *.
  set (bs := bin_size (js_sort xs) n) in *.
  set (first := nth 0 (js_sort xs) 0) in *.
  assert (Hpos' : 0 <= bs).
  { rewrite Hbs. apply Qle_shift_div_l; [exact Hpos | lra]. }
  assert (Hmul : bs * (of_nat j + 1) <= bs * of_nat n).
  { rewrite !(Qmult_comm bs). now apply Qmult_le_compat_r. }
  assert (Hmul0 : 0 <= bs * of_nat j) by now apply Qmult_le_0_compat.
  assert (Hfull : bs * of_nat n == Qmax_list xs - Qmin_list xs).
  { rewrite Hbs. field. lra. }
  repeat split.
  - rewrite <- Hbs. ring.
  - lra.
  - lra.
  - lra.
Qed.

Lemma bins_equal_width_witness :
  nth 1 (source_r_edges (callback (initial [3; 1; 2] 2))) 0
  - nth 1 (source_l_edges (callback (initial [3; 1; 2] 2))) 0
  == (Qmax_list [3; 1; 2] - Qmin_list [3; 1; 2]) / of_nat 2
  /\ nth 1 (source_l_edges (callback (initial [3; 1; 2] 2))) 0
     <= nth 1 (source_r_edges (callback (initial [3; 1; 2] 2))) 0
  /\ Qmin_list [3; 1; 2] <= nth 1 (source_l_edges (callback (initial [3; 1; 2] 2))) 0
  /\ nth 1 (source_r_edges (callback (initial [3; 1; 2] 2))) 0 <= Qmax_list [3; 1; 2].
Proof.
  apply (bins_equal_width (initial [3; 1; 2] 2) 1).
  - discriminate.
  - simpl. lia.
  - simpl. lia.
Defined.

Lemma first_bin_loop (r0 c : Q) (es hs xs : list Q) :
  List.Forall (fun xi => xi <= r0) xs ->
  fold_left (Rebinner.count_sample Q Qplus of_nat Qle_bool (r0 :: es)) xs (c :: hs)
  = fold_left (fun c _ => c + of_nat 1) xs c :: hs.
Proof.
  intros Hxs. revert c. induction Hxs as [|xi xs Hxi Hxs IH]; intros c; simpl.
  - reflexivity.
  - unfold Rebinner.count_sample at 2. simpl.
    apply Qle_bool_iff in Hxi. rewrite Hxi. apply IH.
Qed.

Lemma fold_count (xs : list Q) (c : Q) :
  fold_left (fun c _ => c + of_nat 1) xs c == c + of_nat (length xs).
Proof.
  revert c. induction xs as [|xi xs IH]; intros c; simpl.
  - change (of_nat 0) with 0. ring.
  - rewrite IH. change (of_nat (S (length xs))) with (of_nat (1 + length xs)).
    rewrite Nat.add_comm, of_nat_succ. change (of_nat 1) with 1. ring.
Qed.

Lemma nth_zeros (l : list nat) (j : nat) :
  nth j (map (fun _ : nat => of_nat 0) l) 0 = 0.
Proof.
  revert j. induction l as [|i l IH]; intros [|j]; simpl; auto.
Qed.

(** In exact arithmetic, when all samples are equal (and there is at least
    one sample and one bin) the bin width is zero, every edge is that one
    value, and all samples are counted in the first bin: the other bins
    stay at zero. *)
Theorem degenerate_range (w : widget Q) :
  orig_values w <> [] ->
  Qmin_list (orig_values w) == Qmax_list (orig_values w) ->
  (1 <= bins_value w)%nat ->
  (forall j, (j < bins_value w)%nat ->
     nth j (source_l_edges (callback w)) 0 == Qmin_list (orig_values w)
     /\ nth j (source_r_edges (callback w)) 0 == Qmin_list (orig_values w))
  /\ nth 0 (counts (js_sort (orig_values w)) (bins_value w)) 0
     == of_nat (length (orig_values w))
  /\ (forall j, (0 < j)%nat ->
        nth j (counts (js_sort (orig_values w)) (bins_value w)) 0 = 0).
Proof.
  intros Hne Hmm Hn. destruct w as [xs n h0 l0 r0]. simpl in *.
  fold (js_sort xs). fold (l_edges (js_sort xs) n) (r_edges (js_sort xs) n).
  pose proof (bin_size_min_max xs n Hne) as Hbs.
  pose proof (sorted_first_min xs Hne) as Hfirst.
  pose proof (of_nat_pos n Hn) as Hpos.
  assert (Hz : bin_size (js_sort xs) n == 0).
  { rewrite Hbs, Hmm. field. lra. }
  split; [|split].
  - intros j Hj. rewrite l_edges_nth, r_edges_nth by exact Hj.
    rewrite Hz, Hfirst. split; ring.
  - destruct n as [|n]; [lia|].
    unfold counts, Rebinner.counts, Rebinner.r_edges, Rebinner.array_init.
    simpl seq. simpl map. rewrite first_bin_loop.
    + simpl nth. rewrite fold_count. change (of_nat 0) with 0.
      rewrite js_sort_length. ring.
    + apply List.Forall_forall. intros xi Hxi.
      fold (bin_size (js_sort xs) (S n)). change (Rebinner.js_get Q undef ?l 0%nat)
        with (nth 0 l 0).
      rewrite Hz, Hfirst. rewrite Hmm.
      assert (Hin : In xi xs).
      { eapply Permutation_in; [symmetry; apply js_sort_perm | exact Hxi]. }
      destruct xs as [|a xs]; [congruence|].
      apply Qle_trans with (Qmax_list (a :: xs)); [now apply fold_max_ge | lra].
  - intros j Hj. destruct n as [|n]; [lia|].
    unfold counts, Rebinner.counts, Rebinner.r_edges, Rebinner.array_init.
    simpl seq. simpl map. rewrite first_bin_loop.
    + destruct j as [|j]; [lia|]. simpl nth. apply nth_zeros.
    + apply List.Forall_forall. intros xi Hxi.
      fold (bin_size (js_sort xs) (S n)). change (Rebinner.js_get Q undef ?l 0%nat)
        with (nth 0 l 0).
      rewrite Hz, Hfirst. rewrite Hmm.
      assert (Hin : In xi xs).
      { eapply Permutation_in; [symmetry; apply js_sort_perm | exact Hxi]. }
      destruct xs as [|a xs]; [congruence|].
      apply Qle_trans with (Qmax_list (a :: xs)); [now apply fold_max_ge | lra].
Qed.

Lemma degenerate_range_witness :
  (forall j, (j < 3)%nat ->
     nth j (source_l_edges (callback (initial [2; 2] 3))) 0 == Qmin_list [2; 2]
     /\ nth j (source_r_edges (callback (initial [2; 2] 3))) 0 == Qmin_list [2; 2])
  /\ nth 0 (counts (js_sort [2; 2]) 3) 0 == of_nat (length [2; 2])
  /\ (forall j, (0 < j)%nat -> nth j (counts (js_sort [2; 2]) 3) 0 = 0).
Proof.
  apply (degenerate_range (initial [2; 2] 3)).
  - discriminate.
  - vm_compute. reflexivity.
  - simpl. lia.
Defined.

End RebinnerExtra.

(** ** The kernel expression evaluator: further properties *)

Module EvaluatorExtra.
Import Evaluator Lookup.

Lemma alter_present {A} (f : A -> A) (h : gmap loc A) (l : loc) (d : A) :
  h !! l = Some d -> alter f l h = <[l := f d]> h.
Proof.
  intros Hl. apply map_eq. intros l'. destruct (decide (l = l')) as [<-|Hne].
  - now rewrite lookup_alter_eq, lookup_insert_eq, Hl.
  - now rewrite lookup_alter_ne, lookup_insert_ne.
Qed.

Lemma delete_absent (d : gmap string pyval) (h : gmap loc (gmap string pyval)) (l : loc) :
  h !! l = Some d -> d !! "type" = None -> <[l := delete "type" d]> h = h.
Proof.
  intros Hl Hd. rewrite delete_id by exact Hd. now apply insert_id.
Qed.

Section Generic.

Variable V : Type.
Variable num : Q -> V.
Variable construct : kernel_class -> gmap string pyval -> result V.
Variables op_add op_mul op_pow : V -> V -> result V.
Variable kernel_params : gmap string loc.
Variable kernel_default_params : loc.

Local Abbreviation eval :=
  (_eval V num construct op_add op_mul op_pow kernel_params kernel_default_params).

Lemma eval_name_at suppress kernel_expr id l d h :
  negb suppress && bool_decide (kernel_params !! id = None) = false ->
  default kernel_default_params (kernel_params !! id) = l ->
  h !! l = Some d ->
  eval suppress kernel_expr (Name id) h
  = (lookup_result construct d, <[l := delete "type" d]> h).
Proof.
  intros Hg Hl Hd. simpl. rewrite Hg, Hl.
  unfold bind, pop, kernels_getitem, read, lift, ret, raise, lookup_result.
  rewrite Hd. simpl. rewrite (alter_present _ _ _ _ Hd).
  destruct (default (PStr "rbf") (d !! "type")) as [s|q]; [|reflexivity].
  destruct (kernels !! s); [|reflexivity].
  now rewrite lookup_insert_eq.
Qed.

(** With [suppress=True], an identifier that is not in the table is built
    from the default parameter set; when that set has no [type] entry the
    result is the RBF kernel of its entries (the RBF kernel with default
    parameters when it is empty), and no parameter set changes. *)
Theorem suppressed_identifier_is_rbf kernel_expr id d h :
  kernel_params !! id = None ->
  h !! kernel_default_params = Some d ->
  d !! "type" = None ->
  eval true kernel_expr (Name id) h = (construct RBF d, h).
Proof.
  intros Hid Hd Ht.
  rewrite (eval_name_at true kernel_expr id kernel_default_params d h);
    [|reflexivity | now rewrite Hid | exact Hd].
  rewrite (delete_absent d h _ Hd Ht). unfold lookup_result.
  rewrite Ht. simpl. change (kernels !! "rbf") with (Some RBF).
  now rewrite delete_id by exact Ht.
Qed.

(** A [type] that is not in the registry raises the [KeyError] only after
    the entry has been removed from the caller's set: evaluating the same
    identifier again no longer fails on the type, it builds the RBF kernel
    from the entries that are left. *)
Theorem unknown_type_is_consumed suppress kernel_expr id l d s h :
  kernel_params !! id = Some l ->
  h !! l = Some d ->
  d !! "type" = Some (PStr s) ->
  kernels !! s = None ->
  eval suppress kernel_expr (Name id) h
  = (Raise (KeyError_kernels (PStr s)), <[l := delete "type" d]> h)
  /\ eval suppress kernel_expr (Name id) (<[l := delete "type" d]> h)
     = (construct RBF (delete "type" d), <[l := delete "type" d]> h).
Proof.
  intros Hid Hl Ht Hs.
  assert (Hg : negb suppress && bool_decide (kernel_params !! id = None) = false).
  { rewrite bool_decide_eq_false_2 by congruence. apply andb_false_r. }
  split.
  - rewrite (eval_name_at suppress kernel_expr id l d h Hg); [|now rewrite Hid | exact Hl].
    unfold lookup_result. rewrite Ht. simpl. now rewrite Hs.
  - rewrite (eval_name_at suppress kernel_expr id l (delete "type" d) _ Hg);
      [|now rewrite Hid | apply lookup_insert_eq].
    unfold lookup_result. rewrite lookup_delete_eq. simpl.
    change (kernels !! "rbf") with (Some RBF).
    rewrite insert_insert_eq.
    now rewrite (delete_id (delete "type" d)) by apply lookup_delete_eq.
Qed.

(** An identifier used twice in one expression is looked up twice in the
    same parameter set: the first lookup takes the [type] entry, so in
    [id + id] the left operand is the kernel of the configured class and the
    right operand is the RBF kernel of the remaining entries. *)
Theorem repeated_identifier suppress kernel_expr id l d s c h a b :
  kernel_params !! id = Some l ->
  h !! l = Some d ->
  d !! "type" = Some (PStr s) ->
  kernels !! s = Some c ->
  construct c (delete "type" d) = Ok a ->
  construct RBF (delete "type" d) = Ok b ->
  eval suppress kernel_expr (BinOp (Name id) Add (Name id)) h
  = (op_add a b, <[l := delete "type" d]> h).
Proof.
  intros Hid Hl Ht Hs Ha Hb.
  assert (Hg : negb suppress && bool_decide (kernel_params !! id = None) = false).
  { rewrite bool_decide_eq_false_2 by congruence. apply andb_false_r. }
  change (eval suppress kernel_expr (BinOp (Name id) Add (Name id)) h)
    with (bind (eval suppress kernel_expr (Name id))
            (fun a => bind (eval suppress kernel_expr (Name id))
                        (fun b => lift (op_add a b))) h).
  unfold bind at 1.
  rewrite (eval_name_at suppress kernel_expr id l d h Hg); [|now rewrite Hid | exact Hl].
  unfold lookup_result at 1. rewrite Ht. simpl. rewrite Hs, Ha.
  unfold bind.
  rewrite (eval_name_at suppress kernel_expr id l (delete "type" d) _ Hg);
    [|now rewrite Hid | apply lookup_insert_eq].
  unfold lookup_result. rewrite lookup_delete_eq. simpl.
  change (kernels !! "rbf") with (Some RBF).
  rewrite (delete_id (delete "type" d)) by apply lookup_delete_eq.
  rewrite Hb. unfold lift. now rewrite insert_insert_eq.
Qed.

(** Only [+], [*] and [**] are in the operator table: a binary node with any
    other operator, and every unary node (a negation included), raises the
    [KeyError] of the table before an operand is evaluated, so no parameter
    set changes. *)
Theorem unsupported_operators suppress kernel_expr h :
  (forall l op r, op <> Add -> op <> Mult -> op <> Pow ->
     _eval V num construct op_add op_mul op_pow kernel_params kernel_default_params
       suppress kernel_expr (BinOp l op r) h
     = (Raise (KeyError_operators (Binary op)), h))
  /\ (forall op operand,
        _eval V num construct op_add op_mul op_pow kernel_params kernel_default_params
       suppress kernel_expr (UnaryOp op operand) h
        = (Raise (KeyError_operators (Unary op)), h)).
Proof.
  split.
  - intros l op r H1 H2 H3. destruct op; try congruence; reflexivity.
  - intros op operand. destruct op; reflexivity.
Qed.

End Generic.

Import SKLearn.

Lemma suppressed_identifier_is_rbf_witness :
  SKLearn._eval ∅ 0%nat true "u" (Name "u") {[0%nat := ∅]}
  = (SKLearn.construct RBF ∅, {[0%nat := ∅]}).
Proof.
  apply (suppressed_identifier_is_rbf value (fun q => VNum (Lit q)) SKLearn.construct
           SKLearn.op_add SKLearn.op_mul SKLearn.op_pow ∅ 0%nat "u" "u" ∅ {[0%nat := ∅]}).
  - reflexivity.
  - reflexivity.
  - reflexivity.
Defined.

Lemma unknown_type_is_consumed_witness :
  SKLearn._eval white_table 1%nat false "k" (Name "k") typo_heap
  = (Raise (KeyError_kernels (PStr "rbfx")),
     <[0%nat := delete "type" {["type" := PStr "rbfx"]}]> typo_heap)
  /\ SKLearn._eval white_table 1%nat false "k" (Name "k")
       (<[0%nat := delete "type" {["type" := PStr "rbfx"]}]> typo_heap)
     = (SKLearn.construct RBF (delete "type" {["type" := PStr "rbfx"]}),
        <[0%nat := delete "type" {["type" := PStr "rbfx"]}]> typo_heap).
Proof.
  apply (unknown_type_is_consumed value (fun q => VNum (Lit q)) SKLearn.construct
           SKLearn.op_add SKLearn.op_mul SKLearn.op_pow white_table 1%nat false "k" "k"
           0%nat {["type" := PStr "rbfx"]} "rbfx" typo_heap).
  - reflexivity.
  - reflexivity.
  - reflexivity.
  - reflexivity.
Defined.

Lemma repeated_identifier_witness :
  SKLearn._eval white_table 1%nat false "k + k" (BinOp (Name "k") Add (Name "k"))
    {[0%nat := {["type" := PStr "white"]}]}
  = (SKLearn.op_add (VKernel (Init WhiteKernel (delete "type" {["type" := PStr "white"]})))
       (VKernel (Init RBF (delete "type" {["type" := PStr "white"]}))),
     <[0%nat := delete "type" {["type" := PStr "white"]}]>
       {[0%nat := {["type" := PStr "white"]}]}).
Proof.
  apply (repeated_identifier value (fun q => VNum (Lit q)) SKLearn.construct
           SKLearn.op_add SKLearn.op_mul SKLearn.op_pow white_table 1%nat false "k + k" "k"
           0%nat {["type" := PStr "white"]} "white" WhiteKernel).
  - reflexivity.
  - reflexivity.
  - reflexivity.
  - reflexivity.
  - vm_compute. reflexivity.
  - vm_compute. reflexivity.
Defined.

End EvaluatorExtra.

(** ** [smooth_expression] and its call in [check_cons]: properties *)

Module SmoothSpec.
Import Evaluator Lookup Smooth.

Section Generic.

Variable V : Type.
Variable num : Q -> V.
Variable construct : kernel_class -> gmap string pyval -> result V.
Variables op_add op_mul op_pow : V -> V -> result V.
Variable parse : string -> option node.

Local Abbreviation smooth :=
  (smooth_expression V num construct op_add op_mul op_pow parse).
Local Abbreviation check_cons :=
  (check_cons_smooth V num construct op_add op_mul op_pow parse).

Lemma gp_unfold kernel_params dflt kernel_expr suppress opt_params h :
  smooth "gp" kernel_params dflt kernel_expr suppress opt_params h
  = match gp_kernel V num construct op_add op_mul op_pow parse kernel_params dflt
            suppress kernel_expr h with
    | (Ok kernel, h') =>
        (Ok (GaussianProcessRegressor kernel
               match opt_params !! "alpha" with
               | Some alpha => AlphaGiven alpha
               | None => AlphaStd
               end None (delete "optimizer" (delete "alpha" opt_params))), h')
    | (Raise e, h') => (Raise e, h')
    end.
Proof. reflexivity. Qed.

(** In mode ['gp'] an [optimizer] passed by the caller never reaches the
    regressor: the call gives the same result as without it, and the
    regressor is always built with [optimizer=None] and without [alpha] or
    [optimizer] among the forwarded keyword arguments. *)
Theorem gp_optimizer_dropped kernel_params dflt kernel_expr suppress opt_params v h :
  smooth "gp" kernel_params dflt kernel_expr suppress (<["optimizer" := v]> opt_params) h
  = smooth "gp" kernel_params dflt kernel_expr suppress (delete "optimizer" opt_params) h
  /\ (forall kernel alpha optimizer kwargs h',
        smooth "gp" kernel_params dflt kernel_expr suppress opt_params h
        = (Ok (GaussianProcessRegressor kernel alpha optimizer kwargs), h') ->
        optimizer = None /\ kwargs !! "optimizer" = None /\ kwargs !! "alpha" = None).
Proof.
  split.
  - rewrite !gp_unfold.
    rewrite lookup_insert_ne by discriminate.
    rewrite lookup_delete_ne by discriminate.
    replace (delete "optimizer" (delete "alpha" (<["optimizer" := v]> opt_params)))
      with (delete "optimizer" (delete "alpha" (delete "optimizer" opt_params)));
      [reflexivity|].
    apply map_eq. intros key.
    destruct (decide (key = "optimizer")) as [->|Ho].
    + now rewrite !lookup_delete_eq.
    + rewrite !(lookup_delete_ne _ "optimizer" key) by congruence.
      destruct (decide (key = "alpha")) as [->|Ha].
      * now rewrite !lookup_delete_eq.
      * rewrite !(lookup_delete_ne _ "alpha" key) by congruence.
        rewrite lookup_delete_ne by congruence.
        now rewrite lookup_insert_ne by congruence.
  - intros kernel alpha optimizer kwargs h'. rewrite gp_unfold.
    destruct (gp_kernel _ _ _ _ _ _ _ _ _ _ _ h) as [[k|e] h1]; [|discriminate].
    intros [= _ _ <- <- _]. split; [reflexivity|]. split.
    + apply lookup_delete_eq.
    + rewrite lookup_delete_ne by discriminate. apply lookup_delete_eq.
Qed.

(** [check_cons] in mode ['gp'] smooths with the RBF kernel of the requested
    length scale: the table it passes has the single key ["k"], which becomes
    the kernel expression, and the regressor gets that kernel, the default
    [alpha] and no other option. The caller's heap only gains the new
    parameter set. *)
Theorem check_cons_gp_uses_rbf dflt length_scale h :
  parse "k" = Some (Name "k") ->
  check_cons dflt "gp" length_scale h
  = (match construct RBF {["length_scale" := length_scale]} with
     | Ok kernel => Ok (GaussianProcessRegressor kernel AlphaStd None ∅)
     | Raise e => Raise e
     end,
     <[fresh (dom h) := {["length_scale" := length_scale]}]> h).
Proof.
  intros Hp. unfold check_cons_smooth. rewrite gp_unfold.
  set (l := fresh (dom h)). set (d := {["length_scale" := length_scale]}).
  assert (Hk : gp_kernel V num construct op_add op_mul op_pow parse {["k" := l]} dflt
                 false None (<[l := d]> h)
               = (lookup_result construct d, <[l := d]> h)).
  { unfold gp_kernel, bind, ret.
    rewrite bool_decide_eq_true_2 by apply map_size_singleton.
    rewrite map_to_list_singleton. rewrite Hp.
    rewrite (EvaluatorExtra.eval_name_at V num construct op_add op_mul op_pow
               {["k" := l]} dflt false "k" "k" l d).
    - rewrite insert_insert_eq. rewrite delete_id; [reflexivity|].
      apply lookup_singleton_ne. discriminate.
    - now rewrite lookup_singleton_eq.
    - now rewrite lookup_singleton_eq.
    - apply lookup_insert_eq. }
  rewrite Hk. unfold lookup_result.
  assert (Ht : d !! "type" = None) by (apply lookup_singleton_ne; discriminate).
  rewrite Ht. simpl. change (kernels !! "rbf") with (Some RBF).
  rewrite delete_id by exact Ht.
  destruct (construct RBF d); [|reflexivity].
  rewrite lookup_empty, !delete_empty. reflexivity.
Qed.

(** [check_cons] in mode ['krr'] does not use its [length_scale]: the table
    it passes is ignored, and [gamma] comes from the entry [length_scale] of
    the default parameter set of [smooth_expression], or from 0.2 when that
    set has none. *)
Theorem check_cons_krr_ignores_length_scale dflt length_scale d h :
  h !! dflt = Some d ->
  fst (check_cons_smooth V num construct op_add op_mul op_pow parse dflt "krr"
         length_scale h)
  = Ok (KernelRidge
          (GammaFromLengthScale (default (PNum (1 # 5)) (d !! "length_scale"))) ∅).
Proof.
  intros Hd. unfold check_cons_smooth, smooth_expression.
  change (String.eqb "krr" "krr") with true. cbv iota.
  rewrite lookup_empty. unfold bind, get, ret. simpl.
  rewrite lookup_insert_ne.
  - rewrite Hd. simpl. now rewrite delete_empty.
  - intros E. assert (Hin : dflt ∈ dom h) by (apply elem_of_dom; eauto).
    rewrite <- E in Hin. exact (is_fresh (dom h) Hin).
Qed.

End Generic.

Import SKLearn.

Lemma check_cons_gp_uses_rbf_witness :
  check_cons_smooth value (fun q => VNum (Lit q)) SKLearn.construct SKLearn.op_add
    SKLearn.op_mul SKLearn.op_pow SKLearn.parse 0%nat "gp" (PNum (1 # 2)) {[0%nat := ∅]}
  = (match SKLearn.construct RBF {["length_scale" := PNum (1 # 2)]} with
     | Ok kernel => Ok (GaussianProcessRegressor kernel AlphaStd None ∅)
     | Raise e => Raise e
     end,
     <[fresh (dom ({[0%nat := ∅]} : gmap loc (gmap string pyval)))
       := {["length_scale" := PNum (1 # 2)]}]> {[0%nat := ∅]}).
Proof.
  apply (check_cons_gp_uses_rbf value (fun q => VNum (Lit q)) SKLearn.construct
           SKLearn.op_add SKLearn.op_mul SKLearn.op_pow SKLearn.parse 0%nat
           (PNum (1 # 2)) {[0%nat := ∅]}).
  reflexivity.
Defined.

Lemma check_cons_krr_ignores_length_scale_witness :
  fst (check_cons_smooth value (fun q => VNum (Lit q)) SKLearn.construct SKLearn.op_add
         SKLearn.op_mul SKLearn.op_pow SKLearn.parse 0%nat "krr" (PNum (1 # 2))
         {[0%nat := ∅]})
  = Ok (KernelRidge
          (GammaFromLengthScale
             (default (PNum (1 # 5)) ((∅ : gmap string pyval) !! "length_scale"))) ∅).
Proof.
  apply (check_cons_krr_ignores_length_scale value (fun q => VNum (Lit q))
           SKLearn.construct SKLearn.op_add SKLearn.op_mul SKLearn.op_pow SKLearn.parse
           0%nat (PNum (1 # 2)) ∅ {[0%nat := ∅]}).
  reflexivity.
Defined.

End SmoothSpec.

(** ** [check_cons]: the genes to plot, properties *)

Module CheckConsSpec.
Import CheckCons.

Lemma mask_index_fmap {A} (f : A -> bool) (l : list A) :
  mask_index l (f <$> l) = filter (fun x => f x = true) l.
Proof.
  unfold mask_index. induction l as [|a l IH]; [reflexivity|].
  change (zip (a :: l) (f <$> a :: l)) with ((a, f a) :: zip l (f <$> l)).
  rewrite !filter_cons. cbn [snd].
  destruct (decide (f a = true)).
  - rewrite fmap_cons. cbn [fst]. f_equal. exact IH.
  - exact IH.
Qed.

Lemma forallb_fmap_filter {A} (f : A -> bool) (l : list A) :
  forallb id (f <$> l) = true -> filter (fun x => f x = true) l = l.
Proof.
  induction l as [|a l IH]; [reflexivity|]. simpl. intros H.
  apply andb_prop in H as [Ha Hl]. unfold id in Ha.
  rewrite filter_cons_True by exact Ha. now rewrite IH.
Qed.

Lemma forallb_fmap_Forall {A} (f : A -> bool) (l : list A) :
  forallb id (f <$> l) = true <-> Forall (fun x => f x = true) l.
Proof.
  induction l as [|a l IH]; simpl.
  - split; [constructor | reflexivity].
  - rewrite andb_true_iff, IH. unfold id. split.
    + intros [Ha Hl]. now constructor.
    + intros H. inversion H; subst. now split.
Qed.

(** The genes [check_cons] goes on with all exist in [adata.var_names].
    Given a list, they are the given genes found there, in the given order,
    and the block reports the others as missing (it reports nothing exactly
    when every given gene is found). Without a list they are at most
    [n_velocity_genes] names, all flagged as velocity genes. *)
Theorem selected_genes_exist (var : list (string * bool)) (genes : option (list string))
    (n_velocity_genes : nat) :
  (forall g, g ∈ (select_genes var genes n_velocity_genes).1 -> g ∈ var.*1)
  /\ (forall gs : list string, genes = Some gs ->
        (select_genes var genes n_velocity_genes).1 = filter (fun g => g ∈ var.*1) gs
        /\ ((select_genes var genes n_velocity_genes).2 = None
            <-> Forall (fun g => g ∈ var.*1) gs)
        /\ (forall missing,
              (select_genes var genes n_velocity_genes).2 = Some missing ->
              missing = filter (fun g => g ∉ var.*1) gs))
  /\ (genes = None ->
        length (select_genes var genes n_velocity_genes).1 <= n_velocity_genes
        /\ forall g, g ∈ (select_genes var genes n_velocity_genes).1 -> (g, true) ∈ var)%nat.
Proof.
  assert (Hfound : forall gs : list string,
            filter (fun g => bool_decide (g ∈ var.*1) = true) gs
            = filter (fun g => g ∈ var.*1) gs).
  { intros gs. apply list_filter_iff. intros g. apply bool_decide_eq_true. }
  assert (Hmissing : forall gs : list string,
            mask_index gs (negb <$> ((fun g => bool_decide (g ∈ var.*1)) <$> gs))
            = filter (fun g => g ∉ var.*1) gs).
  { intros gs. rewrite <- list_fmap_compose. rewrite mask_index_fmap.
    apply list_filter_iff. intros g. simpl.
    rewrite negb_true_iff. apply bool_decide_eq_false. }
  assert (Hsel : forall gs : list string,
            (select_genes var (Some gs) n_velocity_genes).1
            = filter (fun g => g ∈ var.*1) gs).
  { intros gs. simpl.
    destruct (forallb id _) eqn:E; simpl.
    - apply forallb_fmap_filter in E. now rewrite <- Hfound, E.
    - now rewrite mask_index_fmap, Hfound. }
  split; [|split].
  - intros g Hg. destruct genes as [gs|].
    + rewrite Hsel in Hg. now apply list_elem_of_filter in Hg as [Hg _].
    + simpl in Hg. apply elem_of_take in Hg as (i & Hi & _).
      apply list_elem_of_lookup_2 in Hi.
      apply list_elem_of_fmap in Hi as ([g' b] & -> & Hp).
      apply list_elem_of_filter in Hp as [_ Hp].
      apply list_elem_of_fmap. now exists (g', b).
  - intros gs ->. split; [apply Hsel | split].
    + simpl. destruct (forallb id _) eqn:E; simpl.
      * split; [|reflexivity]. intros _.
        apply forallb_fmap_Forall in E.
        eapply Forall_impl; [exact E|]. intros g Hg. simpl in Hg.
        now apply bool_decide_eq_true in Hg.
      * split; [discriminate|]. intros HF. exfalso.
        assert (E' : forallb id ((fun g => bool_decide (g ∈ var.*1)) <$> gs) = true).
        { apply forallb_fmap_Forall.
          eapply Forall_impl; [exact HF|]. intros g Hg. simpl.
          now apply bool_decide_eq_true. }
        congruence.
    + intros missing. simpl. destruct (forallb id _); simpl; [discriminate|].
      intros [= <-]. apply Hmissing.
  - intros ->. simpl. split.
    + rewrite length_take. lia.
    + intros g Hg. apply elem_of_take in Hg as (i & Hi & _).
      apply list_elem_of_lookup_2 in Hi.
      apply list_elem_of_fmap in Hi as ([g' b] & -> & Hp).
      apply list_elem_of_filter in Hp as [Hb Hp]. simpl in *. now subst b.
Qed.

End CheckConsSpec.

(** ** [interactive_histograms]: properties *)

Module HistogramsSpec.
Import Histograms.

Lemma check_keys_accepts adata keys :
  check_keys adata keys = Done tt <->
  Forall (fun key => key ∈ obs_keys adata \/ key ∈ var_keys adata
                     \/ key ∈ var_names adata) keys.
Proof.
  induction keys as [|key keys IH]; simpl.
  - split; [constructor | reflexivity].
  - destruct (bool_decide (key ∈ obs_keys adata)) eqn:E1;
    destruct (bool_decide (key ∈ var_keys adata)) eqn:E2;
    destruct (bool_decide (key ∈ var_names adata)) eqn:E3; simpl;
      try (rewrite IH; split;
           [ intros H; constructor; [|exact H];
             first [ apply bool_decide_eq_true in E1; now left
                   | apply bool_decide_eq_true in E2; right; now left
                   | apply bool_decide_eq_true in E3; right; now right ]
           | intros H; now inversion H ]).
    split; [discriminate|]. intros H. inversion H as [|? ? Hk _]; subst.
    apply bool_decide_eq_false in E1, E2, E3. tauto.
Qed.

(** The checks at the start of [interactive_histograms] pass exactly when
    [1 <= min_bins <= bins <= max_bins] and every key is a column of
    [adata.obs] or [adata.var] or a variable name; then every position of
    the slider, from [min_bins] to [max_bins], is a bin count of at least
    one. *)
Theorem check_input_accepts adata keys bins min_bins max_bins :
  (check_input adata keys bins min_bins max_bins = Done tt <->
   (1 <= min_bins <= bins)%Z /\ (bins <= max_bins)%Z
   /\ Forall (fun key => key ∈ obs_keys adata \/ key ∈ var_keys adata
                         \/ key ∈ var_names adata) keys)
  /\ (check_input adata keys bins min_bins max_bins = Done tt ->
      forall value, (min_bins <= value <= max_bins)%Z -> (1 <= Z.to_nat value)%nat).
Proof.
  assert (H : check_input adata keys bins min_bins max_bins = Done tt <->
              (1 <= min_bins <= bins)%Z /\ (bins <= max_bins)%Z
              /\ Forall (fun key => key ∈ obs_keys adata \/ key ∈ var_keys adata
                                    \/ key ∈ var_names adata) keys).
  { unfold check_input, check_bins.
    destruct (min_bins <? 1)%Z eqn:E1; [split; [discriminate | lia]|].
    destruct (max_bins <? min_bins)%Z eqn:E2; [split; [discriminate | lia]|].
    destruct (bins >=? min_bins)%Z eqn:E3; destruct (bins <=? max_bins)%Z eqn:E4;
      simpl; try (split; [discriminate | lia]).
    rewrite check_keys_accepts. split.
    - intros HF. repeat split; [lia | lia | lia | exact HF].
    - now intros (_ & _ & HF). }
  split; [exact H|]. intros Hok value Hv. apply H in Hok. lia.
Qed.

Lemma nonempty_ids_from_spec j groups i :
  i ∈ nonempty_ids_from j groups <->
  (j <= i)%nat /\ exists n_obs, groups !! (i - j)%nat = Some n_obs /\ n_obs <> 0%nat.
Proof.
  revert j. induction groups as [|n groups IH]; intros j; simpl.
  - split; [intros H; inversion H | intros (_ & n & Hn & _); discriminate].
  - destruct (Nat.eqb_spec n 0) as [->|Hn].
    + rewrite IH. split.
      * intros (Hj & m & Hm & Hne). split; [lia|]. exists m.
        replace (i - j)%nat with (S (i - S j)) by lia. now split.
      * intros (Hj & m & Hm & Hne).
        destruct (i - j)%nat as [|d] eqn:Hd; simpl in Hm; [congruence|].
        split; [lia|]. exists m. replace (i - S j)%nat with d by lia. now split.
    + rewrite elem_of_cons, IH. split.
      * intros [->|(Hj & m & Hm & Hne)].
        -- split; [lia|]. exists n. rewrite Nat.sub_diag. now split.
        -- split; [lia|]. exists m.
           replace (i - j)%nat with (S (i - S j)) by lia. now split.
      * intros (Hj & m & Hm & Hne).
        destruct (i - j)%nat as [|d] eqn:Hd; simpl in Hm.
        -- left. lia.
        -- right. split; [lia|]. exists m.
           replace (i - S j)%nat with d by lia. now split.
Qed.

Lemma plot_loop_from {C} (palette : list C) j groups plots :
  (length plots <= length palette)%nat ->
  plot_loop palette j groups plots
  = if decide (length plots + length (nonempty_ids_from j groups) <= length palette)%nat
    then Done (plots ++ zip (nonempty_ids_from j groups) (drop (length plots) palette))
    else Fail IndexError.
Proof.
  revert j plots. induction groups as [|n groups IH]; intros j plots Hlen; simpl.
  - rewrite decide_True by lia. now rewrite app_nil_r.
  - destruct (Nat.eqb_spec n 0) as [->|Hn]; [now apply IH|].
    rewrite length_app, length_fmap. simpl.
    replace (length plots + 1 - 1)%nat with (length plots) by lia.
    destruct (palette !! length plots) as [color|] eqn:Hc.
    + pose proof (lookup_lt_Some _ _ _ Hc) as Hlt.
      rewrite IH by (rewrite length_app; simpl; lia).
      rewrite length_app. simpl.
      rewrite (drop_S _ _ _ Hc). simpl.
      replace (length plots + 1)%nat with (S (length plots)) by lia.
      destruct (decide (S (length plots) + _ <= _)%nat) as [Hd|Hd].
      * rewrite decide_True by lia. now rewrite <- app_assoc.
      * now rewrite decide_False by lia.
    + apply lookup_ge_None in Hc. now rewrite decide_False by lia.
Qed.

(** The loop over the groups gives a plot to each group that has
    observations and skips the others; the [i]-th plot gets the [i]-th colour
    of the palette. When more groups have observations than the palette has
    colours, the loop fails with an [IndexError]. *)
Theorem plot_loop_colours {C} (palette : list C) (groups : list nat) :
  ((length (nonempty_ids groups) <= length palette)%nat ->
   plot_loop palette 0 groups [] = Done (zip (nonempty_ids groups) palette))
  /\ ((length palette < length (nonempty_ids groups))%nat ->
      plot_loop palette 0 groups [] = Fail IndexError)
  /\ (forall i, i ∈ nonempty_ids groups <->
        exists n_obs, groups !! i = Some n_obs /\ n_obs <> 0%nat).
Proof.
  unfold nonempty_ids. split; [|split].
  - intros H. rewrite plot_loop_from by (simpl; lia).
    change (length (@nil (nat * C))) with 0%nat. rewrite Nat.add_0_l.
    destruct (decide _); [reflexivity | contradiction].
  - intros H. rewrite plot_loop_from by (simpl; lia).
    change (length (@nil (nat * C))) with 0%nat. rewrite Nat.add_0_l.
    destruct (decide _); [lia | reflexivity].
  - intros i. rewrite nonempty_ids_from_spec, Nat.sub_0_r. split.
    + now intros [_ H].
    + intros H. split; [lia | exact H].
Qed.

(** *** The two callbacks *)

Lemma set_visible_lookup plot_ids b visible id :
  set_visible plot_ids b visible !! id
  = if decide (id ∈ plot_ids) then Some b else visible !! id.
Proof.
  unfold set_visible. revert visible.
  induction plot_ids as [|p plot_ids IH]; intros visible.
  - destruct (decide (id ∈ [])) as [H|_]; [inversion H | reflexivity].
  - cbn [foldl]. rewrite IH.
    destruct (decide (id ∈ plot_ids)) as [Hin|Hnin];
      destruct (decide (id ∈ p :: plot_ids)) as [Hc|Hc]; try reflexivity.
    + exfalso. apply Hc. now apply list_elem_of_further.
    + apply elem_of_cons in Hc as [->|Hc]; [apply lookup_insert_eq | contradiction].
    + apply lookup_insert_ne. intros ->. apply Hc, list_elem_of_here.
Qed.

Lemma set_visible_twice plot_ids b b' visible :
  set_visible plot_ids b (set_visible plot_ids b' visible) = set_visible plot_ids b visible.
Proof.
  apply map_eq. intros id. rewrite !set_visible_lookup.
  now destruct (decide (id ∈ plot_ids)).
Qed.

Lemma foldl_insert_same (v : nat * nat -> bool) (ps : list (nat * nat))
    (m : gmap nat bool) :
  (forall p, p ∈ ps -> m !! p.2 = Some (v p)) ->
  foldl (fun m p => <[p.2 := v p]> m) m ps = m.
Proof.
  induction ps as [|p ps IH]; intros H; simpl; [reflexivity|].
  rewrite insert_id by (apply H, list_elem_of_here).
  apply IH. intros q Hq. apply H. now apply list_elem_of_further.
Qed.

(** After the button the checkboxes and the plots agree: running the
    callback of the checkbox group on the state the button leaves changes
    nothing. *)
Theorem checkbox_after_button (plot_ids : list nat) (st : panel) :
  checkbox_callback plot_ids (button_callback plot_ids st) = button_callback plot_ids st.
Proof.
  unfold checkbox_callback, button_callback.
  destruct (length (cb_active st) =? length plot_ids)%nat;
    cbn [cb_active p_visible]; f_equal;
    apply foldl_insert_same; intros [i id] Hp;
    apply elem_of_lookup_imap in Hp as (i' & id' & [= -> ->] & Hl); cbn [fst snd];
    rewrite set_visible_lookup;
    (destruct (decide (id' ∈ plot_ids)) as [_|Hn];
     [|exfalso; apply Hn; eapply list_elem_of_lookup_2; exact Hl]); f_equal.
  symmetry. apply bool_decide_eq_true. apply elem_of_seq.
  apply lookup_lt_Some in Hl. lia.
Qed.

(** The button alternates between two states: all boxes ticked and all plots
    shown, no box ticked and all plots hidden. From any state, a third click
    gives what the first click gave. *)
Theorem button_alternates (plot_ids : list nat) (st : panel) :
  (button_callback plot_ids st
   = Panel [] (set_visible plot_ids false (p_visible st))
   \/ button_callback plot_ids st
      = Panel (seq 0 (length plot_ids)) (set_visible plot_ids true (p_visible st)))
  /\ button_callback plot_ids (button_callback plot_ids (button_callback plot_ids st))
     = button_callback plot_ids st.
Proof.
  split.
  - unfold button_callback. destruct (_ =? _)%nat; [now left | now right].
  - destruct plot_ids as [|p plot_ids].
    + unfold button_callback. simpl.
      destruct (length (cb_active st) =? 0)%nat; reflexivity.
    + unfold button_callback.
      destruct (length (cb_active st) =? length (p :: plot_ids))%nat eqn:E;
        cbn [cb_active p_visible].
      * change (length [] =? length (p :: plot_ids))%nat with false. cbv iota.
        cbn [cb_active p_visible]. rewrite length_seq, Nat.eqb_refl.
        now rewrite !set_visible_twice.
      * rewrite length_seq, Nat.eqb_refl. cbn [cb_active p_visible].
        change (length [] =? length (p :: plot_ids))%nat with false. cbv iota.
        now rewrite !set_visible_twice.
Qed.

Lemma nonempty_ids_from_length j groups :
  (length (nonempty_ids_from j groups) <= length groups)%nat
  /\ ((exists i, groups !! i = Some 0%nat) ->
      (length (nonempty_ids_from j groups) < length groups)%nat)
  /\ (Forall (fun n_obs => n_obs <> 0%nat) groups ->
      length (nonempty_ids_from j groups) = length groups).
Proof.
  revert j. induction groups as [|n groups IH]; intros j; simpl.
  - split; [lia|]. split; [intros [i Hi]; discriminate | reflexivity].
  - destruct (IH (S j)) as (Hle & Hlt & Heq).
    destruct (Nat.eqb_spec n 0) as [->|Hn]; simpl.
    + split; [lia|]. split; [lia|]. intros H. inversion H; subst. congruence.
    + split; [lia|]. split.
      * intros [[|i] Hi]; simpl in Hi; [congruence|].
        assert (length (nonempty_ids_from (S j) groups) < length groups)%nat
          by (apply Hlt; eauto). lia.
      * intros H. inversion H; subst. f_equal. now apply Heq.
Qed.

(** The checkbox group starts with one ticked index per group, the groups
    without observations included, while the button compares with the
    number of plots. So when some group has no observations the first click
    on the button hides nothing (it leaves every plot shown and ticks one
    box per plot); when every group has observations the first click hides
    every plot. *)
Theorem first_toggle (groups : list nat) :
  ((exists i, groups !! i = Some 0%nat) ->
   button_callback (nonempty_ids groups)
     (initial_panel (length groups) (nonempty_ids groups))
   = Panel (seq 0 (length (nonempty_ids groups)))
       (set_visible (nonempty_ids groups) true ∅))
  /\ (Forall (fun n_obs => n_obs <> 0%nat) groups ->
      button_callback (nonempty_ids groups)
        (initial_panel (length groups) (nonempty_ids groups))
      = Panel [] (set_visible (nonempty_ids groups) false ∅)).
Proof.
  unfold button_callback, initial_panel, nonempty_ids. cbn [cb_active p_visible].
  rewrite length_seq.
  destruct (nonempty_ids_from_length 0 groups) as (_ & Hlt & Heq). split.
  - intros H. apply Hlt in H.
    destruct (Nat.eqb_spec (length groups) (length (nonempty_ids_from 0 groups)));
      [lia|]. now rewrite set_visible_twice.
  - intros H. apply Heq in H. rewrite H, Nat.eqb_refl.
    now rewrite set_visible_twice.
Qed.

End HistogramsSpec.

(** ** [multi_link]: the hover callback, properties *)

Module MultiLinkSpec.
Import MultiLink.

Lemma pretty_N_go_not_c (x : N) (s s' : string) :
  s <> String "c"%char s' -> pretty_N_go x s <> String "c"%char s'.
Proof.
  revert s. induction (N.lt_wf_0 x) as [x _ IH]; intros s Hs.
  destruct (N.eq_dec x 0%N) as [->|Hx].
  - now rewrite pretty_N_go_0.
  - rewrite pretty_N_go_step by lia. apply IH.
    + apply N.div_lt; lia.
    + unfold pretty_N_char. repeat case_match; discriminate.
Qed.

Lemma pretty_not_color (i : nat) : pretty i <> "color".
Proof.
  unfold pretty, pretty_nat, pretty, pretty_N.
  destruct (decide (N.of_nat i = 0%N)); [discriminate|].
  apply pretty_N_go_not_c. discriminate.
Qed.

Section Hover.

Variable num : Type.
Variable isNaN : num -> bool.
Variable gtb : num -> num -> bool.
Variable NaN : num.

Local Abbreviation hover := (hover_callback num isNaN gtb NaN).

(** Hovering over nothing changes nothing. Hovering over points replaces the
    column [color] by the distance column of the first hovered point, with
    [NaN] in place of every entry that is [NaN] or above the slider value;
    the other hovered points are not looked at; and every other column, the
    distance columns included, stays as it was. *)
Theorem hover_colours (data : gmap string (list num)) (slider_value : num)
    (first : nat) (rest : list nat) (column : list num) :
  data !! pretty first = Some column ->
  hover_callback num isNaN gtb NaN data slider_value [] = (Completed, data)
  /\ hover_callback num isNaN gtb NaN data slider_value (first :: rest)
     = hover_callback num isNaN gtb NaN data slider_value [first]
  /\ fst (hover_callback num isNaN gtb NaN data slider_value (first :: rest)) = Completed
  /\ (forall key, key <> "color" ->
        snd (hover_callback num isNaN gtb NaN data slider_value (first :: rest)) !! key
        = data !! key)
  /\ snd (hover_callback num isNaN gtb NaN data slider_value (first :: rest))
       !! pretty first = Some column
  /\ exists color,
       snd (hover_callback num isNaN gtb NaN data slider_value (first :: rest))
         !! "color" = Some color
       /\ length color = length column
       /\ forall i x, column !! i = Some x ->
            color !! i = Some (if isNaN x || gtb x slider_value then NaN else x).
Proof.
  intros Hc. unfold hover_callback. rewrite Hc. cbn [fst snd].
  repeat split.
  - intros key Hk. now rewrite lookup_insert_ne by congruence.
  - rewrite lookup_insert_ne; [exact Hc|]. intros E. symmetry in E.
    exact (pretty_not_color first E).
  - exists (threshold num isNaN gtb NaN slider_value <$> column).
    split; [apply lookup_insert_eq|]. split; [apply length_fmap|].
    intros i x Hx. rewrite list_lookup_fmap, Hx. reflexivity.
Qed.

End Hover.

Lemma hover_colours_witness :
  ex_hover [] = (Completed, ex_data)
  /\ ex_hover [0%nat; 1%nat] = ex_hover [0%nat]
  /\ fst (ex_hover [0%nat; 1%nat]) = Completed
  /\ (forall key, key <> "color" -> snd (ex_hover [0%nat; 1%nat]) !! key = ex_data !! key)
  /\ snd (ex_hover [0%nat; 1%nat]) !! pretty 0%nat = Some [Some 0%nat; Some 7%nat]
  /\ exists color,
       snd (ex_hover [0%nat; 1%nat]) !! "color" = Some color
       /\ length color = length [Some 0%nat; Some 7%nat]
       /\ forall i x, [Some 0%nat; Some 7%nat] !! i = Some x ->
            color !! i = Some (if ex_isNaN x || ex_gtb x (Some 5%nat) then None else x).
Proof.
  apply (hover_colours (option nat) ex_isNaN ex_gtb None ex_data (Some 5%nat)
           0%nat [1%nat] [Some 0%nat; Some 7%nat]).
  vm_compute. reflexivity.
Defined.

End MultiLinkSpec.

(** ** [_create_adata_groups]: properties *)

Module GroupsSpec.
Import Groups.

Section Groups.

Variable V : Type.
Context `{EqDecision V}.
Variable all : V.

Lemma product_spec (sets : list (list V)) (vals : list V) :
  vals ∈ product V sets <-> Forall2 (fun v s => v ∈ s) vals sets.
Proof.
  revert vals. induction sets as [|s sets IH]; intros vals; simpl.
  - rewrite list_elem_of_singleton. split.
    + intros ->. constructor.
    + intros H. now inversion H.
  - rewrite list_elem_of_bind. split.
    + intros (v & Hv & Hs). apply list_elem_of_bind in Hv as (vals' & Hv & Hp).
      apply list_elem_of_singleton in Hv as ->. constructor; [exact Hs | now apply IH].
    + intros H. inversion H as [|v s' vals' sets' Hv Hrest]; subst.
      exists v. split; [|exact Hv]. apply list_elem_of_bind.
      exists vals'. split; [now apply list_elem_of_singleton | now apply IH].
Qed.

Lemma mask_spec (groups : list string) (vals : list V) (row : string -> V) :
  length vals = length groups ->
  mask V groups vals row = true <-> vals = row <$> groups.
Proof.
  revert vals. induction groups as [|g groups IH]; intros [|v vals] Hlen;
    simpl in Hlen; try lia.
  - split; reflexivity.
  - unfold mask in *. simpl. rewrite andb_true_iff, bool_decide_eq_true, IH by lia.
    split.
    + intros [-> ->]. reflexivity.
    + intros [= -> ->]. now split.
Qed.

(** With at least one grouping column, the combinations of
    [_create_adata_groups] split the cells: a cell belongs to the data of a
    combination of the product exactly when the combination is the tuple of
    the cell's own values in the grouping columns. So every cell is in the
    data of one and only one combination. *)
Theorem cells_partitioned (adata : list (string -> V)) (groups : list string)
    (row : string -> V) (vals : list V) :
  groups <> [] ->
  row ∈ adata ->
  (vals ∈ product V (distinct_values V adata <$> groups)
   /\ row ∈ select V adata groups vals)
  <-> vals = row <$> groups.
Proof.
  intros _ Hrow. split.
  - intros [Hp Hs]. apply product_spec in Hp.
    apply Forall2_length in Hp. rewrite length_fmap in Hp.
    apply list_elem_of_filter in Hs as [Hm _]. now apply mask_spec in Hm.
  - intros ->. split.
    + apply product_spec. apply Forall2_fmap_l, Forall2_fmap_r.
      apply Forall_Forall2_diag, Forall_forall. intros g _.
      unfold distinct_values. apply elem_of_remove_dups.
      apply list_elem_of_fmap. now exists row.
    + apply list_elem_of_filter. split; [|exact Hrow].
      apply mask_spec; [now rewrite length_fmap | reflexivity].
Qed.

(** The loop over the plots sees each combination with the cells selected
    for it, then, when [display_all] is set, ['all'] with the whole data; the
    extra copy of the whole data that [_create_adata_groups] always appends
    is never reached. Without grouping columns there is the one plot
    ['all']. *)
Theorem plotted_pairs (adata : list (string -> V)) (groups : option (list string))
    (display_all : bool) :
  plotted V all adata groups display_all
  = match groups with
    | None => [(adata, [all])]
    | Some gs =>
        zip (select V adata gs <$> product V (distinct_values V adata <$> gs))
            (product V (distinct_values V adata <$> gs))
        ++ (if display_all then [(adata, [all])] else [])
    end.
Proof.
  unfold plotted, _create_adata_groups. destruct groups as [gs|]; [|reflexivity].
  destruct display_all; cbv beta zeta iota; cbn [fst snd];
    set (combs := product V (distinct_values V adata <$> gs)).
  - rewrite <- app_assoc. rewrite zip_with_app by apply length_fmap.
    reflexivity.
  - rewrite <- (app_nil_r combs) at 2.
    rewrite zip_with_app by apply length_fmap. reflexivity.
Qed.

End Groups.

(** Two cells of plate ["a"] and one of plate ["b"]. *)
Lemma cells_partitioned_witness :
  (["a"] ∈ product string
             (distinct_values string
                [fun _ : string => "a"; fun _ : string => "b"; fun _ : string => "a"]
              <$> ["plate"])
   /\ (fun _ : string => "a")
      ∈ select string
          [fun _ : string => "a"; fun _ : string => "b"; fun _ : string => "a"]
          ["plate"] ["a"])
  <-> ["a"] = (fun _ : string => "a") <$> ["plate"].
Proof.
  apply (cells_partitioned string
           [fun _ : string => "a"; fun _ : string => "b"; fun _ : string => "a"]
           ["plate"] (fun _ : string => "a") ["a"]).
  - discriminate.
  - apply list_elem_of_here.
Defined.

End GroupsSpec.

(** ** [highlight_de]: properties *)

Module HighlightDESpec.
Import HighlightDE.

Lemma fromkeys_from_spec (seen l : list string) :
  NoDup (fromkeys_from seen l)
  /\ forall x, x ∈ fromkeys_from seen l <-> x ∈ l /\ x ∉ seen.
Proof.
  revert seen. induction l as [|a l IH]; intros seen; simpl.
  - split; [constructor|]. intros x. split; [intros H; inversion H | intros [H _]; inversion H].
  - destruct (bool_decide (a ∈ seen)) eqn:E.
    + apply bool_decide_eq_true in E. destruct (IH seen) as [Hnd Hin].
      split; [exact Hnd|]. intros x. rewrite Hin, elem_of_cons. split.
      * intros [Hx Hs]. split; [now right | exact Hs].
      * intros [[->|Hx] Hs]; [contradiction | now split].
    + apply bool_decide_eq_false in E. destruct (IH (a :: seen)) as [Hnd Hin].
      split.
      * constructor; [|exact Hnd]. rewrite Hin. intros [_ Hn].
        apply Hn, list_elem_of_here.
      * intros x. rewrite !elem_of_cons, Hin, elem_of_cons. split.
        -- intros [->|[Hx Hs]]; [split; [now left | exact E]|].
           split; [now right | tauto].
        -- intros [[->|Hx] Hs]; [now left|].
           destruct (decide (x = a)) as [->|Hne]; [now left|].
           right. split; [exact Hx|]. intros [?|?]; contradiction.
Qed.

Lemma from_text_spec keys msg s l :
  from_text keys msg s = Done l -> NoDup l /\ forall x, x ∈ l -> x ∈ keys.
Proof.
  unfold from_text.
  destruct (bool_decide (_ = [EmptyString])).
  - intros [= <-]. split; [constructor | intros x H; inversion H].
  - destruct (forallb _ _) eqn:E; [|discriminate]. intros [= <-]. split.
    + apply fromkeys_from_spec.
    + intros x Hx. rewrite forallb_forall in E.
      apply list_elem_of_In in Hx. apply E in Hx. now apply bool_decide_eq_true in Hx.
Qed.

(** When [cell_values] is given as a comma-separated string and
    [highlight_de] gets past its checks, the list it goes on with has no
    entry twice, contains the group key, and every entry is the group key or
    a column of [adata.obs]; the default list of the function is not
    touched. *)
Theorem cell_values_from_text default adata basis de_values s de cell default'
    rank_keys key :
  rank_genes_groups adata = Some (rank_keys, key) ->
  prepare default adata basis de_values (Text s) = (Done (de, cell), default') ->
  NoDup cell /\ key ∈ cell
  /\ (forall x, x ∈ cell -> x = key \/ x ∈ obs_keys adata)
  /\ default' = default.
Proof.
  intros Hr. unfold prepare. rewrite Hr.
  destruct (match de_values with Text _ => _ | _ => _ end) as [de0|e]; [|discriminate].
  destruct (from_text (obs_keys adata) _ s) as [cell0|e] eqn:Hc; [|discriminate].
  destruct (negb _); [discriminate|].
  apply from_text_spec in Hc as [Hnd Hin].
  destruct (bool_decide (key ∈ cell0)) eqn:Hk; intros [= <- <- <-].
  - apply bool_decide_eq_true in Hk. repeat split; auto.
  - apply bool_decide_eq_false in Hk. repeat split.
    + now constructor.
    + apply list_elem_of_here.
    + intros x Hx. apply elem_of_cons in Hx as [->|Hx]; auto.
Qed.

(** When [cell_values] is left out, the group key is inserted into the list
    object that is the default of the argument, and stays there: after a
    call the default list is the list the call used, it contains the group
    key and everything it held before. *)
Theorem default_list_keeps_keys default adata basis de_values de cell default'
    rank_keys key :
  rank_genes_groups adata = Some (rank_keys, key) ->
  prepare default adata basis de_values Default = (Done (de, cell), default') ->
  default' = cell /\ key ∈ default'
  /\ (forall x, x ∈ default -> x ∈ default')
  /\ (key ∉ default -> default' = key :: default).
Proof.
  intros Hr. unfold prepare. rewrite Hr.
  destruct (match de_values with Text _ => _ | _ => _ end) as [de0|e]; [|discriminate].
  destruct (negb _); [discriminate|].
  destruct (bool_decide (key ∈ default)) eqn:Hk; intros [= <- <- <-].
  - apply bool_decide_eq_true in Hk. repeat split; auto. intros; contradiction.
  - apply bool_decide_eq_false in Hk. repeat split.
    + apply list_elem_of_here.
    + intros x Hx. now apply list_elem_of_further.
Qed.

Lemma cell_values_from_text_witness :
  NoDup ["louvain"; "n_genes"] /\ "louvain" ∈ ["louvain"; "n_genes"]
  /\ (forall x, x ∈ ["louvain"; "n_genes"] -> x = "louvain" \/ x ∈ obs_keys ex_adata)
  /\ @nil string = [].
Proof.
  apply (cell_values_from_text [] ex_adata "umap" Default " n_genes , n_genes"
           ["names"; "scores"; "pvals_adj"; "logfoldchanges"] ["louvain"; "n_genes"] []
           ["names"; "scores"; "params"] "louvain").
  - reflexivity.
  - vm_compute. reflexivity.
Defined.

Lemma default_list_keeps_keys_witness :
  ["louvain"; "leiden"] = ["louvain"; "leiden"] /\ "louvain" ∈ ["louvain"; "leiden"]
  /\ (forall x, x ∈ ["leiden"] -> x ∈ ["louvain"; "leiden"])
  /\ ("louvain" ∉ ["leiden"] -> ["louvain"; "leiden"] = "louvain" :: ["leiden"]).
Proof.
  apply (default_list_keeps_keys ["leiden"] ex_adata "umap" Default
           ["names"; "scores"; "pvals_adj"; "logfoldchanges"] ["louvain"; "leiden"]
           ["louvain"; "leiden"] ["names"; "scores"; "params"] "louvain").
  - reflexivity.
  - vm_compute. reflexivity.
Defined.

End HighlightDESpec.
